(** * stardis: the radiation field, its angular quadrature and the
      build-and-solve pipeline; the scaled solar composition profile.

    Shallow embedding of

      - [src/stardis/radiation_field/base.py]
          ([RadiationField], [create_stellar_radiation_field]);
      - [src/stardis/io/model/util.py] ([create_scaled_solar_profile]).

    Conventions of the embedding.

      - Python [float] / numpy [float64] values are read as real numbers
        ([R]) and their arithmetic as exact real arithmetic; rounding is
        not modelled.  Python [int] is [Z].
      - A one-dimensional numpy array is a [list R]; a multi-dimensional
        one is an [ndarray]: its shape and its row-major buffer.  Allocation
        does not fail for lack of memory.
      - Python code runs in the monad [M]: a world (the object heap and the
        trace of observable calls) is threaded through, and an exception
        aborts the rest of the computation and surfaces with the world as
        it was when it was raised.
      - A [RadiationField] instance lives in the heap and is handled through
        its reference; [self.attr = v] updates the object in place, and an
        attribute that has not been assigned yet is [None]. *)

From Stdlib Require Import Reals Lra ZArith Lia Sorted.
From stdpp Require Import base list strings gmap.

Open Scope Z_scope.

(** ** Exceptions *)

Inductive exn : Type :=
| ValueError (msg : string)
| KeyError (msg : string)
| AttributeError (msg : string)
| OtherError (name : string).

(** ** numpy *)

Module np.

(** [numpy.ndarray] of floats: shape and flat (row-major) buffer. *)
Record ndarray : Type := mk_ndarray { shape : list Z; data : list R }.

(** Number of cells of an array of the given shape. *)
Definition size_of (shp : list Z) : Z := foldr Z.mul 1 shp.

(** [np.pi] *)
Definition pi : R := PI.

(** The value of a zero-filled array of the given shape. *)
Definition zeros_of (shp : list Z) : ndarray :=
  mk_ndarray shp (replicate (Z.to_nat (size_of shp)) 0%R).

End np.

(** [len(x)] of a sequence. *)
Definition len {A : Type} (l : list A) : Z := Z.of_nat (length l).

(** Sum of a sequence of floats. *)
Definition Rsum (l : list R) : R := foldr Rplus 0%R l.

Section RadiationFieldModel.

(** Opaque collaborators: the source function object, the stellar plasma
    and the opacity configuration are only passed along. *)
Context {SourceFunction StellarPlasma OpacityConfig : Type}.

(** [stardis.stellar_model.StellarModel]; the radiation field reads the
    attribute [no_of_depth_points] only. *)
Record StellarModel : Type := mk_StellarModel { no_of_depth_points : Z }.

(** The configuration object read by [create_stellar_radiation_field]. *)
Record Config : Type := mk_Config {
  no_of_thetas : Z;
  opacity : OpacityConfig;
  n_threads : Z
}.

(** Modelled from the spec: class [Opacities] of
    [stardis.radiation_field.opacities], whose constructor is called by
    [RadiationField.__init__] but is not among the sources.  The spec
    (section 4.2): construction "allocates opacities as an empty aggregate
    keyed by the given frequency grid and stellar model".  The aggregate
    maps the name of an opacity source to its (depth, frequency) table. *)
Record Opacities : Type := mk_Opacities {
  opacities_frequencies : list R;
  opacities_depth_points : Z;
  opacities_dict : list (string * np.ndarray)
}.

(** Modelled from the spec: the constructor call
    [Opacities(frequencies, stellar_model)], absent from the sources; by the
    spec it yields the empty aggregate for the given grid and model, and no
    failure of it is specified. *)
Definition Opacities_new (frequencies : list R) (stellar_model : StellarModel)
  : Opacities :=
  {| opacities_frequencies := frequencies;
     opacities_depth_points := no_of_depth_points stellar_model;
     opacities_dict := [] |}.

(** *** The [RadiationField] object

    One field per instance attribute assigned in [__init__]; [None] while
    the attribute is not set. *)
Record RadiationField : Type := mk_RadiationField {
  frequencies : option (list R);
  source_function : option SourceFunction;
  opacities : option Opacities;
  F_nu : option np.ndarray;
  thetas : option (list R);
  I_nus_weights : option (list R);
  I_nus : option np.ndarray
}.

(** A freshly allocated instance, before [__init__] has run. *)
Definition blank : RadiationField :=
  mk_RadiationField None None None None None None None.

(** Class attribute [hdf_properties]. *)
Definition hdf_properties : list string :=
  ["frequencies"; "opacities"; "F_nu"]%string.

(** The instance attributes of a [RadiationField], by name. *)
Definition attribute_names : list string :=
  ["frequencies"; "source_function"; "opacities"; "F_nu"; "thetas";
   "I_nus_weights"; "I_nus"]%string.

(** [self.attr = v] for each attribute. *)
Definition set_frequencies v (o : RadiationField) :=
  mk_RadiationField (Some v) (source_function o) (opacities o) (F_nu o)
    (thetas o) (I_nus_weights o) (I_nus o).
Definition set_source_function v (o : RadiationField) :=
  mk_RadiationField (frequencies o) (Some v) (opacities o) (F_nu o)
    (thetas o) (I_nus_weights o) (I_nus o).
Definition set_opacities v (o : RadiationField) :=
  mk_RadiationField (frequencies o) (source_function o) (Some v) (F_nu o)
    (thetas o) (I_nus_weights o) (I_nus o).
Definition set_F_nu v (o : RadiationField) :=
  mk_RadiationField (frequencies o) (source_function o) (opacities o) (Some v)
    (thetas o) (I_nus_weights o) (I_nus o).
Definition set_thetas v (o : RadiationField) :=
  mk_RadiationField (frequencies o) (source_function o) (opacities o) (F_nu o)
    (Some v) (I_nus_weights o) (I_nus o).
Definition set_I_nus_weights v (o : RadiationField) :=
  mk_RadiationField (frequencies o) (source_function o) (opacities o) (F_nu o)
    (thetas o) (Some v) (I_nus o).
Definition set_I_nus v (o : RadiationField) :=
  mk_RadiationField (frequencies o) (source_function o) (opacities o) (F_nu o)
    (thetas o) (I_nus_weights o) (Some v).

(** The attribute read back in [__init__] ([len(self.thetas)]). *)
Definition get_thetas : RadiationField -> option (list R) := thetas.

(** *** Worlds: heap and trace *)

(** A reference to a [RadiationField] instance: its index in the heap. *)
Definition ref : Type := nat.

Definition Heap : Type := list RadiationField.

(** The calls made to the two solvers, with their arguments as passed. *)
Inductive call : Type :=
| CalcAlphas (stellar_plasma : StellarPlasma) (stellar_model : StellarModel)
    (stellar_radiation_field : ref) (opacity_config : OpacityConfig)
    (n_threads : Z)
| Raytrace (stellar_model : StellarModel) (stellar_radiation_field : ref)
    (n_threads : Z).

(** What an observer of a run sees, in order. *)
Inductive event : Type :=
| EvZeros (shp : list Z)        (* np.zeros allocated an array of this shape *)
| EvLeggauss (deg : Z)          (* leggauss returned nodes and weights *)
| EvLogInfo (msg : string)      (* logger.info *)
| EvCall (c : call)             (* a solver is entered *)
| EvReturn (c : call).          (* the solver has returned normally *)

Record World : Type := mk_World { heap : Heap; trace : list event }.

(** *** The monad of Python computations *)

Definition M (A : Type) : Type := World -> (exn + A) * World.

#[export] Instance M_ret : MRet M := λ A (a : A) w, (inr a, w).

#[export] Instance M_bind : MBind M := λ A B (f : A -> M B) (m : M A) w,
  match m w with
  | (inr a, w') => f a w'
  | (inl e, w') => (inl e, w')
  end.

(** [raise e] *)
Definition raise {A : Type} (e : exn) : M A := λ w, (inl e, w).

Definition emit (ev : event) : M unit :=
  λ w, (inr tt, mk_World (heap w) (trace w ++ [ev])).

(** The result of a pure library call that either raises or returns. *)
Definition lift {A : Type} (r : exn + A) : M A :=
  match r with inl e => raise e | inr a => mret a end.

(** Object allocation ([cls.__new__]): a fresh reference to a blank
    instance. *)
Definition new_object : M ref :=
  λ w, (inr (length (heap w)), mk_World (heap w ++ [blank]) (trace w)).

(** [self.attr = v], through the setter of the attribute. *)
Definition setattr (self : ref) (set : RadiationField -> RadiationField)
  : M unit :=
  λ w, (inr tt, mk_World (alter set self (heap w)) (trace w)).

(** [self.attr]: raises [AttributeError] when the attribute is not set. *)
Definition getattr {A : Type} (self : ref) (name : string)
    (get : RadiationField -> option A) : M A :=
  λ w, match heap w !! self ≫= get with
       | Some v => (inr v, w)
       | None => (inl (AttributeError name), w)
       end.

(** [np.zeros(shape)]: a negative dimension raises [ValueError]; otherwise
    a new zero-filled array is allocated. *)
Definition np_zeros (shp : list Z) : M np.ndarray :=
  if forallb (Z.leb 0) shp
  then emit (EvZeros shp) ;;
       mret (np.zeros_of shp)
  else raise (ValueError "negative dimensions are not allowed").

(** [logger.info(msg)] *)
Definition logger_info (msg : string) : M unit := emit (EvLogInfo msg).

(** *** External code *)

(** [np.polynomial.legendre.leggauss(deg)]: a numpy routine, taken as a
    parameter of the model.  It raises or returns the pair (sample points,
    weights). *)
Variable leggauss : Z -> exn + (list R * list R).

Definition np_leggauss (deg : Z) : M (list R * list R) :=
  r ← lift (leggauss deg); emit (EvLeggauss deg) ;; mret r.

(** The opacity aggregator and the ray integrator
    ([stardis.radiation_field.opacities.opacities_solvers.calc_alphas],
    [stardis.radiation_field.radiation_field_solvers.raytrace]) are taken as
    parameters: arbitrary computations that may update the heap in place
    and may raise. *)
Variable calc_alphas :
  StellarPlasma -> StellarModel -> ref -> OpacityConfig -> Z ->
  Heap -> (exn + unit) * Heap.
Variable raytrace :
  StellarModel -> ref -> Z -> Heap -> (exn + unit) * Heap.

(** The behaviour of a solver call, as a heap transformer. *)
Definition solver (c : call) : Heap -> (exn + unit) * Heap :=
  match c with
  | CalcAlphas sp sm rf oc n => calc_alphas sp sm rf oc n
  | Raytrace sm rf n => raytrace sm rf n
  end.

(** Calling a solver: the call is entered, the solver runs on the heap,
    and control comes back only if it does not raise. *)
Definition invoke (c : call) : M unit :=
  emit (EvCall c) ;;
  (λ w, let '(r, h) := solver c (heap w) in (r, mk_World h (trace w))) ;;
  emit (EvReturn c).

(** The source function [blackbody_flux_at_nu] of
    [stardis.radiation_field.source_functions.blackbody]; only its
    reference is stored. *)
Variable blackbody_flux_at_nu : SourceFunction.

(** *** [RadiationField.__init__] *)

Definition RadiationField_init (self : ref) (frequencies : list R)
    (source_function : SourceFunction) (stellar_model : StellarModel)
    (num_of_thetas : Z) : M unit :=
  setattr self (set_frequencies frequencies) ;;
  setattr self (set_source_function source_function) ;;
  setattr self (set_opacities (Opacities_new frequencies stellar_model)) ;;
  z ← np_zeros [no_of_depth_points stellar_model; len frequencies];
  setattr self (set_F_nu z) ;;
  '(thetas, weights) ← np_leggauss num_of_thetas;
  setattr self
    (set_thetas ((λ x, x / 2 + 0.5 * np.pi / 2)%R <$> thetas)) ;;
  setattr self
    (set_I_nus_weights ((λ w, w * np.pi / 2)%R <$> weights)) ;;
  self_thetas ← getattr self "thetas" get_thetas;
  z ← np_zeros [no_of_depth_points stellar_model; len frequencies;
                len self_thetas];
  setattr self (set_I_nus z).

(** The constructor call [RadiationField(...)]: allocate, initialise,
    hand out the reference. *)
Definition RadiationField_new (frequencies : list R)
    (source_function : SourceFunction) (stellar_model : StellarModel)
    (num_of_thetas : Z) : M ref :=
  self ← new_object;
  RadiationField_init self frequencies source_function stellar_model
    num_of_thetas ;;
  mret self.

(** *** [create_stellar_radiation_field] *)

Definition create_stellar_radiation_field (tracing_nus : list R)
    (stellar_model : StellarModel) (stellar_plasma : StellarPlasma)
    (config : Config) : M ref :=
  stellar_radiation_field ←
    RadiationField_new tracing_nus blackbody_flux_at_nu stellar_model
      (no_of_thetas config);
  logger_info "Calculating alphas" ;;
  invoke (CalcAlphas stellar_plasma stellar_model stellar_radiation_field
            (opacity config) (n_threads config)) ;;
  logger_info "Raytracing" ;;
  invoke (Raytrace stellar_model stellar_radiation_field
            (n_threads config)) ;;
  mret stellar_radiation_field.

(** *** States of an instance during and after [__init__]

    The attributes set once the line [self.opacities = ...] has run, once
    [self.F_nu = ...] has run, and at the end of [__init__], given what
    [leggauss] returned. *)
Definition after_opacities (frequencies : list R)
    (source_function : SourceFunction) (stellar_model : StellarModel)
  : RadiationField :=
  mk_RadiationField (Some frequencies) (Some source_function)
    (Some (Opacities_new frequencies stellar_model)) None None None None.

Definition after_F_nu (frequencies : list R)
    (source_function : SourceFunction) (stellar_model : StellarModel)
  : RadiationField :=
  set_F_nu
    (np.zeros_of [no_of_depth_points stellar_model; len frequencies])
    (after_opacities frequencies source_function stellar_model).

Definition initialised (frequencies : list R)
    (source_function : SourceFunction) (stellar_model : StellarModel)
    (nodes weights : list R) : RadiationField :=
  mk_RadiationField (Some frequencies) (Some source_function)
    (Some (Opacities_new frequencies stellar_model))
    (Some (np.zeros_of [no_of_depth_points stellar_model; len frequencies]))
    (Some ((λ x, x / 2 + 0.5 * np.pi / 2)%R <$> nodes))
    (Some ((λ w, w * np.pi / 2)%R <$> weights))
    (Some (np.zeros_of [no_of_depth_points stellar_model; len frequencies;
                        len nodes])).

End RadiationFieldModel.

(** A sequence of floats in strictly increasing order. *)
Definition strictly_increasing (l : list R) : Prop :=
  ∀ (i j : nat) (a b : R),
    (i < j)%nat → l !! i = Some a → l !! j = Some b → (a < b)%R.

(** ** [stardis.io.model.util] *)

Module util.

Open Scope R_scope.

(** Pure Python code that either raises or returns. *)
Definition result (A : Type) : Type := exn + A.

#[export] Instance result_ret : MRet result := λ A (a : A), inr a.

#[export] Instance result_bind : MBind result :=
  λ A B (f : A -> result B) (m : result A),
    match m with inl e => inl e | inr a => f a end.

Definition ASPLUND_DEFAULT_HELIUM_MASS_FRACTION_Y : R := 0.2492280.

Definition ASPLUND_DEFAULT_HEAVY_ELEMENTS_MASS_FRACTION_Z : R := 0.01337.

(** A row of the table read from [asplund_2009_processed.csv]: the index
    (first column of the file, the atomic number) and the two columns the
    code names.  The file itself is not among the sources: its rows are a
    parameter of [create_scaled_solar_profile] below. *)
Record solar_row : Type := mk_solar_row {
  atomic_number : Z;
  Element : string;
  Value : R
}.

(** The frame once [mass_fractions] is its only column: index label and
    cell, in row order. *)
Definition frame : Type := list (Z * R).

(** [series.loc[labels]] with a list of labels: the cell of every label,
    in the order asked; a label missing from the series raises
    [KeyError]. *)
Fixpoint loc_list (series : gmap Z R) (labels : list Z) : result (list R) :=
  match labels with
  | [] => mret []
  | i :: labels' =>
      match series !! i with
      | None => inl (KeyError "not in index")
      | Some m => ms ← loc_list series labels'; mret (m :: ms)
      end
  end.

(** [df.loc[label]] read on a frame: [KeyError] when no row carries the
    label. *)
Definition has_label (label : Z) (df : frame) : bool :=
  existsb (λ row, Z.eqb row.1 label) df.

(** [df.loc[label] = df.loc[label] * k / k0] *)
Definition scale_label (label : Z) (k k0 : R) (df : frame) : result frame :=
  if has_label label df
  then mret ((λ row, if Z.eqb row.1 label then (row.1, row.2 * k / k0)
                     else row) <$> df)
  else inl (KeyError "label").

(** [df.loc[label:] = df.loc[label:] * k / k0], on an index sorted by
    increasing label: the slice is the rows labelled [label] or more. *)
Definition scale_from (label : Z) (k k0 : R) (df : frame) : frame :=
  (λ row, if Z.leb label row.1 then (row.1, row.2 * k / k0) else row) <$> df.

(** Every cell of the column is positive. *)
Definition cells_positive (df : frame) : Prop := Forall (λ row, 0 < row.2) df.

(** [df.sum(axis=0)] of the only column. *)
Definition column_sum (df : frame) : R := Rsum (snd <$> df).

(** [df.div(total)] *)
Definition div_column (df : frame) (total : R) : frame :=
  (λ row, (row.1, row.2 / total)) <$> df.

Definition create_scaled_solar_profile
    (asplund_2009_processed : list solar_row)
    (atom_data_mass : gmap Z R)
    (helium_mass_frac_Y heavy_metal_mass_frac_Z : R)
    (final_atomic_number : option Z) : result frame :=
  let solar_values := asplund_2009_processed in
  let solar_values :=
    match final_atomic_number with
    | Some n => filter (λ row, (atomic_number row <= n)%Z) solar_values
    | None => solar_values
    end in
  masses ← loc_list atom_data_mass (atomic_number <$> solar_values);
  let mass_fractions :=
    zip_with (λ m row, m * Rpower 10 (Value row)) masses solar_values in
  let solar_values : frame :=
    zip (atomic_number <$> solar_values) mass_fractions in
  (* Scale Helium *)
  solar_values ←
    scale_label 2 helium_mass_frac_Y ASPLUND_DEFAULT_HELIUM_MASS_FRACTION_Y
      solar_values;
  (* Scale Metals *)
  let solar_values :=
    scale_from 3 heavy_metal_mass_frac_Z
      ASPLUND_DEFAULT_HEAVY_ELEMENTS_MASS_FRACTION_Z solar_values in
  mret (div_column solar_values (column_sum solar_values)).

(** The rows the [final_atomic_number] filter keeps: all of them when it is
    [None]. *)
Definition selected_rows (final_atomic_number : option Z)
    (table : list solar_row) : list solar_row :=
  match final_atomic_number with
  | Some n => filter (λ row, (atomic_number row <= n)%Z) table
  | None => table
  end.

(** The frame as it stands before any scaling: per row, the atomic mass
    times [10**Value]. *)
Definition unscaled_frame (rows : list solar_row) (masses : list R) : frame :=
  zip (atomic_number <$> rows)
    (zip_with (λ m row, m * Rpower 10 (Value row)) masses rows).

End util.

(** ** Concrete collaborators, used to run the model *)

Module sample.

Open Scope R_scope.

(** The Gauss-Legendre rules with one, two and three points in closed
    form, with numpy's error for a degree that is not positive; larger
    degrees are not tabulated. *)
Definition leggauss (deg : Z) : exn + (list R * list R) :=
  if (deg <=? 0)%Z then inl (ValueError "deg must be a positive integer")
  else match deg with
       | 1%Z => inr ([0], [2])
       | 2%Z => inr ([- / sqrt 3; / sqrt 3], [1; 1])
       | 3%Z => inr ([- sqrt (3 / 5); 0; sqrt (3 / 5)], [5 / 9; 8 / 9; 5 / 9])
       | _ => inl (OtherError "not tabulated")
       end.

(** Legendre polynomials by Bonnet's recurrence:
    [(k + 1) P_(k+1)(x) = (2 k + 1) x P_k(x) - k P_(k-1)(x)]. *)
Fixpoint legendre_pair (n : nat) (x : R) : R * R :=
  match n with
  | O => (1, x)
  | S k =>
      let '(p0, p1) := legendre_pair k x in
      (p1, ((2 * INR k + 3) * x * p1 - (INR k + 1) * p0) / (INR k + 2))
  end.

Definition legendre (n : nat) (x : R) : R := (legendre_pair n x).1.

(** Solvers that return without touching the heap, and one that fails. *)
Definition calc_alphas (_ : unit) (_ : StellarModel) (_ : ref) (_ : unit)
    (_ : Z) (h : @Heap unit) : (exn + unit) * @Heap unit := (inr tt, h).

Definition raytrace (_ : StellarModel) (_ : ref) (_ : Z) (h : @Heap unit)
  : (exn + unit) * @Heap unit := (inr tt, h).

Definition calc_alphas_failing (_ : unit) (_ : StellarModel) (_ : ref)
    (_ : unit) (_ : Z) (h : @Heap unit) : (exn + unit) * @Heap unit :=
  (inl (KeyError "missing species"), h).

Definition raytrace_failing (_ : StellarModel) (_ : ref) (_ : Z)
    (h : @Heap unit) : (exn + unit) * @Heap unit :=
  (inl (ValueError "divergent ray integral"), h).

(** The empty world. *)
Definition world0 : @World unit unit unit := mk_World [] [].

(** Five tracing frequencies. *)
Definition nus5 : list R := [1; 2; 3; 4; 5].

Definition config3 : @Config unit := mk_Config 3 tt 1.

(** The first three rows of the Asplund 2009 photospheric abundances and
    the matching atomic weights. *)
Definition asplund3 : list util.solar_row :=
  [util.mk_solar_row 1 "H" 12; util.mk_solar_row 2 "He" 10.93;
   util.mk_solar_row 3 "Li" 1.05].

Definition masses3 : gmap Z R :=
  <[1%Z := 1.008]> (<[2%Z := 4.0026]> (<[3%Z := 6.94]> ∅)).

(** The first four rows and atomic weights, and atom data that lack
    lithium. *)
Definition asplund4 : list util.solar_row :=
  [util.mk_solar_row 1 "H" 12; util.mk_solar_row 2 "He" 10.93;
   util.mk_solar_row 3 "Li" 1.05; util.mk_solar_row 4 "Be" 1.38].

Definition masses4 : gmap Z R :=
  <[1%Z := 1.008]> (<[2%Z := 4.0026]> (<[3%Z := 6.94]>
    (<[4%Z := 9.0122]> ∅))).


(** Degenerate atom data: every atomic mass is zero. *)
Definition masses_zero : gmap Z R :=
  <[1%Z := 0]> (<[2%Z := 0]> (<[3%Z := 0]> ∅)).

End sample.

(** * Properties *)

(** ** Running the monad *)

Section Runs.

Context {SourceFunction StellarPlasma OpacityConfig : Type}.

Local Abbreviation World := (@World SourceFunction StellarPlasma OpacityConfig).
Local Abbreviation M := (@M SourceFunction StellarPlasma OpacityConfig).
Local Abbreviation RadiationField := (@RadiationField SourceFunction).

Lemma bind_ok {A B : Type} (m : M A) (f : A -> M B) (w w' : World) (a : A) :
  m w = (inr a, w') → (m ≫= f) w = f a w'.
Proof. intros H. unfold mbind, M_bind. rewrite H. reflexivity. Qed.

Lemma bind_err {A B : Type} (m : M A) (f : A -> M B) (w w' : World) (e : exn) :
  m w = (inl e, w') → (m ≫= f) w = (inl e, w').
Proof. intros H. unfold mbind, M_bind. rewrite H. reflexivity. Qed.

(** A bind that returns: its first part returned, and the rest ran from
    there. *)
Lemma bind_inr_inv {A B : Type} (m : M A) (f : A -> M B) (w w' : World) (b : B) :
  (m ≫= f) w = (inr b, w') →
  ∃ a w1, m w = (inr a, w1) ∧ f a w1 = (inr b, w').
Proof.
  unfold mbind, M_bind. destruct (m w) as [[e | a] w1]; intros H.
  - discriminate.
  - eauto.
Qed.

Lemma setattr_fresh (h : Heap) (o : RadiationField) (t : list event)
    (f : RadiationField -> RadiationField) :
  setattr (length h) f (mk_World (h ++ [o]) t : World)
  = (inr tt, mk_World (h ++ [f o]) t).
Proof.
  unfold setattr, ref, Heap. cbn [heap trace].
  replace (length h) with (length h + 0)%nat by lia.
  rewrite alter_app_r. reflexivity.
Qed.

Lemma getattr_fresh {A : Type} (h : Heap) (o : RadiationField)
    (t : list event) (name : string) (get : RadiationField -> option A) (v : A) :
  get o = Some v →
  getattr (length h) name get (mk_World (h ++ [o]) t : World)
  = (inr v, mk_World (h ++ [o]) t).
Proof.
  intros H. unfold getattr, ref, Heap. cbn [heap].
  rewrite list_lookup_middle by reflexivity. cbn. rewrite H. reflexivity.
Qed.

Lemma len_nonneg {A : Type} (l : list A) : 0 <= len l.
Proof. unfold len. lia. Qed.

Lemma len_fmap {A B : Type} (f : A -> B) (l : list A) : len (f <$> l) = len l.
Proof. unfold len. rewrite length_fmap. reflexivity. Qed.

Lemma np_zeros_ok (shp : list Z) (w : World) :
  Forall (Z.le 0) shp →
  np_zeros shp w
  = (inr (np.zeros_of shp), mk_World (heap w) (trace w ++ [EvZeros shp])).
Proof.
  intros H. unfold np_zeros.
  replace (forallb (Z.leb 0) shp) with true; [reflexivity |].
  symmetry. apply forallb_forall. intros d Hd. apply Z.leb_le.
  rewrite Forall_forall in H. apply H, list_elem_of_In, Hd.
Qed.

Lemma np_zeros_negative (shp : list Z) (w : World) :
  Exists (λ d, d < 0) shp →
  np_zeros shp w
  = (inl (ValueError "negative dimensions are not allowed"), w).
Proof.
  intros H. unfold np_zeros.
  replace (forallb (Z.leb 0) shp) with false; [reflexivity |].
  symmetry. apply not_true_is_false. intros Hf.
  rewrite forallb_forall in Hf. apply Exists_exists in H as (d & Hin & Hd).
  apply list_elem_of_In, Hf, Z.leb_le in Hin. lia.
Qed.

Section Constructor.

Variable leggauss : Z -> exn + (list R * list R).

Local Abbreviation RF_init :=
  (@RadiationField_init SourceFunction StellarPlasma OpacityConfig leggauss).
Local Abbreviation RF_new :=
  (@RadiationField_new SourceFunction StellarPlasma OpacityConfig leggauss).

Lemma np_leggauss_ok (n : Z) (r : list R * list R) (w : World) :
  leggauss n = inr r →
  np_leggauss leggauss n w
  = (inr r, mk_World (heap w) (trace w ++ [EvLeggauss n])).
Proof. intros H. unfold np_leggauss. rewrite H. reflexivity. Qed.

Lemma np_leggauss_err (n : Z) (e : exn) (w : World) :
  leggauss n = inl e → np_leggauss leggauss n w = (inl e, w).
Proof. intros H. unfold np_leggauss. rewrite H. reflexivity. Qed.

(** [__init__] runs to its end when the depth count is not negative and
    [leggauss] returns. *)
Lemma init_ok h o t frequencies source_function stellar_model n x w :
  leggauss n = inr (x, w) → 0 <= no_of_depth_points stellar_model →
  RF_init (length h) frequencies source_function stellar_model n
    (mk_World (h ++ [o]) t)
  = (inr tt,
     mk_World (h ++ [initialised frequencies source_function stellar_model x w])
       (t ++ [EvZeros [no_of_depth_points stellar_model; len frequencies];
              EvLeggauss n;
              EvZeros [no_of_depth_points stellar_model; len frequencies;
                       len x]])).
Proof.
  intros Hlg Hd. unfold RadiationField_init.
  do 3 (erewrite bind_ok by apply setattr_fresh).
  erewrite bind_ok
    by (apply np_zeros_ok; repeat constructor; [assumption | apply len_nonneg]).
  cbn [heap trace].
  erewrite bind_ok by apply setattr_fresh.
  erewrite bind_ok by (apply np_leggauss_ok, Hlg).
  cbn [heap trace].
  do 2 (erewrite bind_ok by apply setattr_fresh).
  erewrite bind_ok by (apply getattr_fresh; reflexivity).
  erewrite bind_ok
    by (apply np_zeros_ok; repeat constructor;
        [assumption | apply len_nonneg | apply len_nonneg]).
  cbn [heap trace].
  rewrite setattr_fresh, <- !app_assoc, len_fmap. reflexivity.
Qed.

(** A negative depth count: [np.zeros] raises at the allocation of
    [F_nu]. *)
Lemma init_negative_depth h t frequencies source_function stellar_model n :
  no_of_depth_points stellar_model < 0 →
  RF_init (length h) frequencies source_function stellar_model n
    (mk_World (h ++ [blank]) t)
  = (inl (ValueError "negative dimensions are not allowed"),
     mk_World (h ++ [after_opacities frequencies source_function stellar_model])
       t).
Proof.
  intros Hd. unfold RadiationField_init.
  do 3 (erewrite bind_ok by apply setattr_fresh).
  erewrite bind_err by (apply np_zeros_negative; left; assumption).
  reflexivity.
Qed.

(** [leggauss] raises: the error surfaces once [F_nu] is in place. *)
Lemma init_leggauss_err h t frequencies source_function stellar_model n e :
  leggauss n = inl e → 0 <= no_of_depth_points stellar_model →
  RF_init (length h) frequencies source_function stellar_model n
    (mk_World (h ++ [blank]) t)
  = (inl e,
     mk_World (h ++ [after_F_nu frequencies source_function stellar_model])
       (t ++ [EvZeros [no_of_depth_points stellar_model; len frequencies]])).
Proof.
  intros Hlg Hd. unfold RadiationField_init.
  do 3 (erewrite bind_ok by apply setattr_fresh).
  erewrite bind_ok
    by (apply np_zeros_ok; repeat constructor; [assumption | apply len_nonneg]).
  cbn [heap trace].
  erewrite bind_ok by apply setattr_fresh.
  erewrite bind_err by (apply np_leggauss_err, Hlg).
  reflexivity.
Qed.

Lemma new_ok frequencies source_function stellar_model n x w (w0 : World) :
  leggauss n = inr (x, w) → 0 <= no_of_depth_points stellar_model →
  RF_new frequencies source_function stellar_model n w0
  = (inr (length (heap w0)),
     mk_World
       (heap w0 ++ [initialised frequencies source_function stellar_model x w])
       (trace w0 ++
          [EvZeros [no_of_depth_points stellar_model; len frequencies];
           EvLeggauss n;
           EvZeros [no_of_depth_points stellar_model; len frequencies;
                    len x]])).
Proof.
  intros Hlg Hd. unfold RadiationField_new.
  erewrite bind_ok by reflexivity.
  erewrite bind_ok by (apply init_ok; eassumption).
  reflexivity.
Qed.

Lemma new_negative_depth frequencies source_function stellar_model n
    (w0 : World) :
  no_of_depth_points stellar_model < 0 →
  RF_new frequencies source_function stellar_model n w0
  = (inl (ValueError "negative dimensions are not allowed"),
     mk_World
       (heap w0 ++ [after_opacities frequencies source_function stellar_model])
       (trace w0)).
Proof.
  intros Hd. unfold RadiationField_new.
  erewrite bind_ok by reflexivity.
  erewrite bind_err by (apply init_negative_depth; assumption).
  reflexivity.
Qed.

Lemma new_leggauss_err frequencies source_function stellar_model n e
    (w0 : World) :
  leggauss n = inl e → 0 <= no_of_depth_points stellar_model →
  RF_new frequencies source_function stellar_model n w0
  = (inl e,
     mk_World
       (heap w0 ++ [after_F_nu frequencies source_function stellar_model])
       (trace w0 ++
          [EvZeros [no_of_depth_points stellar_model; len frequencies]])).
Proof.
  intros Hlg Hd. unfold RadiationField_new.
  erewrite bind_ok by reflexivity.
  erewrite bind_err by (apply init_leggauss_err; eassumption).
  reflexivity.
Qed.

(** The reference handed out by the constructor is the fresh one. *)
Lemma new_ref_fresh frequencies source_function stellar_model n
    (w0 w1 : World) (r : ref) :
  RF_new frequencies source_function stellar_model n w0 = (inr r, w1) →
  r = length (heap w0).
Proof.
  unfold RadiationField_new. intros H.
  apply bind_inr_inv in H as (self & wa & Hnew & H).
  apply bind_inr_inv in H as (u & wb & _ & H).
  unfold new_object in Hnew. cbv [mret M_ret] in H. congruence.
Qed.

Lemma lookup_fresh (h : Heap) (o : RadiationField) :
  (h ++ [o]) !! length h = Some o.
Proof. unfold Heap. apply list_lookup_middle. reflexivity. Qed.

(** ** The angular quadrature stored by the constructor *)

Lemma Rsum_scaled_weights (ws : list R) :
  Rsum ((λ w, w * np.pi / 2)%R <$> ws) = (Rsum ws * PI / 2)%R.
Proof.
  unfold np.pi. induction ws as [| w ws IH]; cbn.
  - lra.
  - unfold Rsum in IH. rewrite IH. lra.
Qed.

Lemma mapped_angle (x : R) : (x / 2 + 0.5 * np.pi / 2 = x / 2 + PI / 4)%R.
Proof. unfold np.pi. lra. Qed.

Lemma mapped_angle_in_quadrant (x : R) :
  (-1 < x < 1)%R → (0 < x / 2 + 0.5 * np.pi / 2 < PI / 2)%R.
Proof.
  intros [Hlo Hhi]. rewrite mapped_angle.
  pose proof PI2_1 as Hpi. split; lra.
Qed.

(** C1 (amended): for every [num_of_thetas = n >= 1] for which [leggauss]
    returns weights that sum to 2 (the Gauss-Legendre weights on [-1, 1]),
    the constructor completes and the weights it stores in [I_nus_weights],
    each scaled by pi/2, sum to pi (not pi/2).  Exact arithmetic; the depth
    count must be one [np.zeros] accepts. *)
Theorem I_nus_weights_sum_to_pi
    frequencies source_function stellar_model n x w (w0 : World) :
  1 <= n →
  leggauss n = inr (x, w) →
  Rsum w = 2%R →
  0 <= no_of_depth_points stellar_model →
  ∃ (r : ref) (w1 : World) (rf : RadiationField) (ws : list R),
    RF_new frequencies source_function stellar_model n w0 = (inr r, w1)
    ∧ heap w1 !! r = Some rf
    ∧ I_nus_weights rf = Some ws
    ∧ Rsum ws = PI.
Proof.
  intros _ Hlg Hsum Hd.
  eexists _, _, _, _. split; [apply new_ok; eassumption |].
  cbn [heap]. split; [apply lookup_fresh |].
  split; [reflexivity |].
  rewrite Rsum_scaled_weights, Hsum. lra.
Qed.

(** C3: for every [n >= 1] for which [leggauss] returns [n] nodes inside
    (-1, 1) and [n] weights, the constructor stores exactly [n] angles and
    [n] weights; the i-th angle is [x_i / 2 + pi / 4] and the i-th weight is
    [w_i * pi / 2], in the order of the nodes; every angle lies strictly
    inside (0, pi/2). *)
Theorem thetas_and_weights_from_nodes
    frequencies source_function stellar_model n x w (w0 : World) :
  1 <= n →
  leggauss n = inr (x, w) →
  len x = n →
  len w = n →
  Forall (λ t, (-1 < t < 1)%R) x →
  0 <= no_of_depth_points stellar_model →
  ∃ (r : ref) (w1 : World) (rf : RadiationField) (th ws : list R),
    RF_new frequencies source_function stellar_model n w0 = (inr r, w1)
    ∧ heap w1 !! r = Some rf
    ∧ thetas rf = Some th
    ∧ I_nus_weights rf = Some ws
    ∧ len th = n
    ∧ len ws = n
    ∧ (∀ (i : nat) (xi : R),
         x !! i = Some xi → th !! i = Some (xi / 2 + PI / 4)%R)
    ∧ (∀ (i : nat) (wi : R),
         w !! i = Some wi → ws !! i = Some (wi * (PI / 2))%R)
    ∧ Forall (λ θ, (0 < θ < PI / 2)%R) th.
Proof.
  intros _ Hlg Hx Hw Hrange Hd.
  eexists _, _, _, _, _. split; [apply new_ok; eassumption |].
  cbn [heap]. split; [apply lookup_fresh |].
  split; [reflexivity |]. split; [reflexivity |].
  split; [rewrite len_fmap; exact Hx |].
  split; [rewrite len_fmap; exact Hw |].
  split; [| split].
  - intros i xi Hi. rewrite list_lookup_fmap, Hi. cbn.
    rewrite mapped_angle. reflexivity.
  - intros i wi Hi. rewrite list_lookup_fmap, Hi. cbn.
    f_equal. unfold np.pi. lra.
  - apply Forall_fmap. eapply Forall_impl; [exact Hrange |].
    intros t Ht. cbn. apply mapped_angle_in_quadrant, Ht.
Qed.

(** C9: for every [n >= 1] for which [leggauss] returns its nodes in
    strictly increasing order, the [thetas] stored by the constructor are
    strictly increasing. *)
Theorem thetas_strictly_increasing
    frequencies source_function stellar_model n x w (w0 : World) :
  1 <= n →
  leggauss n = inr (x, w) →
  strictly_increasing x →
  0 <= no_of_depth_points stellar_model →
  ∃ (r : ref) (w1 : World) (rf : RadiationField) (th : list R),
    RF_new frequencies source_function stellar_model n w0 = (inr r, w1)
    ∧ heap w1 !! r = Some rf
    ∧ thetas rf = Some th
    ∧ strictly_increasing th.
Proof.
  intros _ Hlg Hinc Hd.
  eexists _, _, _, _. split; [apply new_ok; eassumption |].
  cbn [heap]. split; [apply lookup_fresh |].
  split; [reflexivity |].
  intros i j a b Hij Ha Hb.
  rewrite list_lookup_fmap in Ha, Hb.
  destruct (x !! i) as [xi |] eqn:Hi; [| discriminate].
  destruct (x !! j) as [xj |] eqn:Hj; [| discriminate].
  cbn in Ha, Hb. injection Ha as <-. injection Hb as <-.
  pose proof (Hinc i j xi xj Hij Hi Hj). lra.
Qed.

(** ** Shapes and failures of construction *)

Lemma len_zeros (shp : list Z) :
  Forall (Z.le 0) shp → len (np.data (np.zeros_of shp)) = np.size_of shp.
Proof.
  intros H. unfold len, np.zeros_of. cbn [np.data].
  rewrite length_replicate. apply Z2Nat.id.
  induction H as [| d shp Hd _ IH]; cbn; [lia |].
  apply Z.mul_nonneg_nonneg; assumption.
Qed.

Lemma zeros_all_zero (shp : list Z) :
  Forall (λ v, v = 0%R) (np.data (np.zeros_of shp)).
Proof. apply Forall_replicate. reflexivity. Qed.

(** C4: for a non-empty [frequencies] of length N_f, a stellar model with a
    positive depth count N_depth and [num_of_thetas = N_theta >= 1] (for
    which [leggauss] returns N_theta nodes and weights), the constructor
    completes; [F_nu] has shape (N_depth, N_f) and [I_nus] has shape
    (N_depth, N_f, N_theta), both hold zeros only (one per cell), and
    [thetas] and [I_nus_weights] have length N_theta. *)
Theorem construction_shapes_and_zeros
    frequencies source_function stellar_model n x w (w0 : World) :
  frequencies ≠ [] →
  0 < no_of_depth_points stellar_model →
  1 <= n →
  leggauss n = inr (x, w) →
  len x = n →
  len w = n →
  ∃ (r : ref) (w1 : World) (rf : RadiationField) (f i : np.ndarray)
    (th ws : list R),
    RF_new frequencies source_function stellar_model n w0 = (inr r, w1)
    ∧ heap w1 !! r = Some rf
    ∧ F_nu rf = Some f ∧ I_nus rf = Some i
    ∧ thetas rf = Some th ∧ I_nus_weights rf = Some ws
    ∧ np.shape f = [no_of_depth_points stellar_model; len frequencies]
    ∧ np.shape i = [no_of_depth_points stellar_model; len frequencies; n]
    ∧ Forall (λ v, v = 0%R) (np.data f)
    ∧ Forall (λ v, v = 0%R) (np.data i)
    ∧ len (np.data f) = no_of_depth_points stellar_model * len frequencies
    ∧ len (np.data i) = no_of_depth_points stellar_model * len frequencies * n
    ∧ len th = n ∧ len ws = n.
Proof.
  intros _ Hd _ Hlg Hx Hw.
  pose proof (len_nonneg frequencies) as Hf.
  pose proof (len_nonneg x) as Hxn.
  eexists _, _, _, _, _, _, _.
  split; [apply new_ok; [eassumption | lia] |].
  cbn [heap]. split; [apply lookup_fresh |].
  do 4 (split; [reflexivity |]).
  split; [reflexivity |].
  split; [cbn; rewrite Hx; reflexivity |].
  split; [apply zeros_all_zero |].
  split; [apply zeros_all_zero |].
  split; [rewrite len_zeros by (repeat constructor; lia); cbn; lia |].
  split; [rewrite len_zeros by (repeat constructor; lia); cbn; lia |].
  rewrite !len_fmap. split; assumption.
Qed.

(** C2 (amended): given that [leggauss] rejects a degree below 1 with a
    [ValueError], the constructor raises a [ValueError] when the depth count
    is negative or when [num_of_thetas < 1]; a depth count that is not
    negative (zero included) and any [frequencies] (the empty sequence
    included) are accepted: the constructor then completes whenever
    [leggauss] returns. *)
Theorem construction_errors
    frequencies source_function stellar_model n (w0 : World) :
  (∀ deg, deg < 1 → ∃ msg, leggauss deg = inl (ValueError msg)) →
  (no_of_depth_points stellar_model < 0 ∨ n < 1 →
   ∃ (msg : string) (w1 : World),
     RF_new frequencies source_function stellar_model n w0
     = (inl (ValueError msg), w1))
  ∧ (0 <= no_of_depth_points stellar_model →
     (∃ x w, leggauss n = inr (x, w)) →
     ∃ (r : ref) (w1 : World),
       RF_new frequencies source_function stellar_model n w0 = (inr r, w1)).
Proof.
  intros Hdeg. split.
  - intros Hbad.
    destruct (Z_lt_le_dec (no_of_depth_points stellar_model) 0) as [Hd | Hd].
    + eexists _, _. apply new_negative_depth, Hd.
    + destruct Hbad as [Hd' | Hn]; [lia |].
      destruct (Hdeg n Hn) as [msg Hlg].
      eexists _, _. apply new_leggauss_err; eassumption.
  - intros Hd (x & w & Hlg). eexists _, _. apply new_ok; eassumption.
Qed.

(** C5 (amended): when [num_of_thetas < 1] makes [leggauss] raise (the depth
    count being one [np.zeros] accepts), the error surfaces from the
    constructor unchanged, after the array [F_nu] has been allocated and
    stored and before anything else is: [F_nu] is the only array allocated,
    and [thetas], [I_nus_weights] and [I_nus] are not set. *)
Theorem quadrature_error_after_F_nu
    frequencies source_function stellar_model n e (w0 : World) :
  n < 1 →
  leggauss n = inl e →
  0 <= no_of_depth_points stellar_model →
  ∃ (w1 : World) (o : RadiationField),
    RF_new frequencies source_function stellar_model n w0 = (inl e, w1)
    ∧ trace w1
      = trace w0
        ++ [EvZeros [no_of_depth_points stellar_model; len frequencies]]
    ∧ heap w1 = heap w0 ++ [o]
    ∧ F_nu o
      = Some (np.zeros_of [no_of_depth_points stellar_model; len frequencies])
    ∧ thetas o = None ∧ I_nus_weights o = None ∧ I_nus o = None.
Proof.
  intros _ Hlg Hd. eexists _, _.
  split; [apply new_leggauss_err; eassumption |].
  cbn [heap trace]. repeat (split; [reflexivity |]). reflexivity.
Qed.

End Constructor.

(** ** The build-and-solve pipeline *)

Section Pipeline.

Variable leggauss : Z -> exn + (list R * list R).
Variable calc_alphas :
  StellarPlasma -> StellarModel -> ref -> OpacityConfig -> Z ->
  @Heap SourceFunction -> (exn + unit) * @Heap SourceFunction.
Variable raytrace :
  StellarModel -> ref -> Z ->
  @Heap SourceFunction -> (exn + unit) * @Heap SourceFunction.
Variable blackbody_flux_at_nu : SourceFunction.

Local Abbreviation RF_new :=
  (@RadiationField_new SourceFunction StellarPlasma OpacityConfig leggauss).
Local Abbreviation solver_of := (solver calc_alphas raytrace).
Local Abbreviation invoke_solver := (invoke calc_alphas raytrace).
Local Abbreviation create :=
  (create_stellar_radiation_field leggauss calc_alphas raytrace
     blackbody_flux_at_nu).

Lemma invoke_ok (c : call) (w : World) (h : Heap) :
  solver_of c (heap w) = (inr tt, h) →
  invoke_solver c w = (inr tt, mk_World h (trace w ++ [EvCall c; EvReturn c])).
Proof.
  intros H. unfold invoke.
  erewrite bind_ok by reflexivity.
  erewrite bind_ok by (cbn [heap trace]; rewrite H; reflexivity).
  unfold emit. cbn [heap trace]. rewrite <- app_assoc. reflexivity.
Qed.

Lemma invoke_err (c : call) (w : World) (e : exn) (h : Heap) :
  solver_of c (heap w) = (inl e, h) →
  invoke_solver c w = (inl e, mk_World h (trace w ++ [EvCall c])).
Proof.
  intros H. unfold invoke.
  erewrite bind_ok by reflexivity.
  erewrite bind_err by (cbn [heap trace]; rewrite H; reflexivity).
  reflexivity.
Qed.

Lemma invoke_inr_inv (c : call) (w w' : World) (u : unit) :
  invoke_solver c w = (inr u, w') →
  ∃ h, solver_of c (heap w) = (inr tt, h)
       ∧ w' = mk_World h (trace w ++ [EvCall c; EvReturn c]).
Proof.
  intros H. destruct (solver_of c (heap w)) as [[e | []] h] eqn:Hs.
  - rewrite (invoke_err _ _ _ _ Hs) in H. discriminate.
  - rewrite (invoke_ok _ _ _ Hs) in H. exists h. split; congruence.
Qed.

Lemma logger_info_run (msg : string) (w : World) :
  logger_info msg w = (inr tt, mk_World (heap w) (trace w ++ [EvLogInfo msg])).
Proof. reflexivity. Qed.

(** C6: a run of [create_stellar_radiation_field] returns the reference [r]
    exactly when: the constructor, called on [tracing_nus], the blackbody
    source function, the stellar model and [config.no_of_thetas], returned
    [r] (the fresh instance); then [calc_alphas], called on that instance,
    returned; then, from the heap it left, [raytrace], called on that
    instance, returned.  The trace shows the order: construction,
    [calc_alphas] entered and left, then [raytrace] entered and left. *)
Theorem pipeline_order_and_result
    tracing_nus stellar_model stellar_plasma config (w0 w' : World) (r : ref) :
  create tracing_nus stellar_model stellar_plasma config w0 = (inr r, w')
  ↔ ∃ (w1 : World) (h2 h3 : Heap),
      RF_new tracing_nus blackbody_flux_at_nu stellar_model
        (no_of_thetas config) w0 = (inr r, w1)
      ∧ r = length (heap w0)
      ∧ calc_alphas stellar_plasma stellar_model r (opacity config)
          (n_threads config) (heap w1) = (inr tt, h2)
      ∧ raytrace stellar_model r (n_threads config) h2 = (inr tt, h3)
      ∧ w' = mk_World h3
               (trace w1 ++
                  [EvLogInfo "Calculating alphas";
                   EvCall (CalcAlphas stellar_plasma stellar_model r
                             (opacity config) (n_threads config));
                   EvReturn (CalcAlphas stellar_plasma stellar_model r
                               (opacity config) (n_threads config));
                   EvLogInfo "Raytracing";
                   EvCall (Raytrace stellar_model r (n_threads config));
                   EvReturn (Raytrace stellar_model r (n_threads config))]).
Proof.
  unfold create_stellar_radiation_field. split.
  - intros H.
    apply bind_inr_inv in H as (r' & w1 & Hnew & H).
    apply bind_inr_inv in H as ([] & wa & Hlog1 & H).
    apply bind_inr_inv in H as (u1 & wb & Hca & H).
    apply bind_inr_inv in H as ([] & wc & Hlog2 & H).
    apply bind_inr_inv in H as (u2 & wd & Hrt & H).
    cbv [mret M_ret] in H. injection H as -> ->.
    rewrite logger_info_run in Hlog1. injection Hlog1 as <-.
    apply invoke_inr_inv in Hca as (h2 & Hca & ->).
    rewrite logger_info_run in Hlog2. injection Hlog2 as <-.
    apply invoke_inr_inv in Hrt as (h3 & Hrt & ->).
    cbn [heap trace solver] in *.
    exists w1, h2, h3. split; [exact Hnew |].
    split; [eapply new_ref_fresh, Hnew |].
    split; [exact Hca |]. split; [exact Hrt |].
    rewrite <- !app_assoc. reflexivity.
  - intros (w1 & h2 & h3 & Hnew & _ & Hca & Hrt & ->).
    erewrite bind_ok by exact Hnew.
    erewrite bind_ok by apply logger_info_run.
    erewrite bind_ok by (apply invoke_ok; exact Hca).
    erewrite bind_ok by apply logger_info_run.
    erewrite bind_ok by (apply invoke_ok; exact Hrt).
    cbv [mret M_ret]. cbn [heap trace]. rewrite <- !app_assoc. reflexivity.
Qed.

(** C7: once the instance is constructed, an error raised by [calc_alphas]
    is the result of [create_stellar_radiation_field], unchanged, with the
    heap as [calc_alphas] left it; [calc_alphas] has been entered once and
    [raytrace] not at all.  An error raised by [raytrace] after [calc_alphas]
    returned is the result as well, unchanged; each solver has been entered
    once.  In both cases no reference is returned. *)
Theorem solver_errors_propagate
    tracing_nus stellar_model stellar_plasma config (w0 w1 : World) (r : ref) :
  RF_new tracing_nus blackbody_flux_at_nu stellar_model (no_of_thetas config)
    w0 = (inr r, w1) →
  (∀ (e : exn) (h2 : Heap),
     calc_alphas stellar_plasma stellar_model r (opacity config)
       (n_threads config) (heap w1) = (inl e, h2) →
     create tracing_nus stellar_model stellar_plasma config w0
     = (inl e,
        mk_World h2
          (trace w1 ++
             [EvLogInfo "Calculating alphas";
              EvCall (CalcAlphas stellar_plasma stellar_model r
                        (opacity config) (n_threads config))])))
  ∧ (∀ (e : exn) (h2 h3 : Heap),
       calc_alphas stellar_plasma stellar_model r (opacity config)
         (n_threads config) (heap w1) = (inr tt, h2) →
       raytrace stellar_model r (n_threads config) h2 = (inl e, h3) →
       create tracing_nus stellar_model stellar_plasma config w0
       = (inl e,
          mk_World h3
            (trace w1 ++
               [EvLogInfo "Calculating alphas";
                EvCall (CalcAlphas stellar_plasma stellar_model r
                          (opacity config) (n_threads config));
                EvReturn (CalcAlphas stellar_plasma stellar_model r
                            (opacity config) (n_threads config));
                EvLogInfo "Raytracing";
                EvCall (Raytrace stellar_model r (n_threads config))]))).
Proof.
  intros Hnew. unfold create_stellar_radiation_field. split.
  - intros e h2 Hca.
    erewrite bind_ok by exact Hnew.
    erewrite bind_ok by apply logger_info_run.
    erewrite bind_err by (apply invoke_err; exact Hca).
    cbn [heap trace]. rewrite <- !app_assoc. reflexivity.
  - intros e h2 h3 Hca Hrt.
    erewrite bind_ok by exact Hnew.
    erewrite bind_ok by apply logger_info_run.
    erewrite bind_ok by (apply invoke_ok; exact Hca).
    erewrite bind_ok by apply logger_info_run.
    erewrite bind_err by (apply invoke_err; exact Hrt).
    cbn [heap trace]. rewrite <- !app_assoc. reflexivity.
Qed.

End Pipeline.

End Runs.

(** ** The persisted attributes *)

(** C8: the export list [hdf_properties] names exactly [frequencies],
    [opacities] and [F_nu], in that order; [I_nus], [thetas] and
    [I_nus_weights] are attributes of the instance that it does not name. *)
Theorem hdf_properties_exact :
  hdf_properties = ["frequencies"; "opacities"; "F_nu"]%string
  ∧ length hdf_properties = 3%nat
  ∧ hdf_properties !! 0%nat = Some "frequencies"%string
  ∧ hdf_properties !! 1%nat = Some "opacities"%string
  ∧ hdf_properties !! 2%nat = Some "F_nu"%string
  ∧ Forall (λ name, name ∈ attribute_names ∧ name ∉ hdf_properties)
      ["I_nus"; "thetas"; "I_nus_weights"]%string.
Proof.
  repeat (split; [reflexivity |]).
  repeat constructor; compute_done.
Qed.

(** ** The scaled solar profile *)

Section ScaledSolarProfile.

Import util.
Open Scope R_scope.

Lemma column_sum_div_column (df : frame) (total : R) :
  column_sum (div_column df total) = column_sum df / total.
Proof.
  unfold column_sum, div_column.
  induction df as [| row df IH]; cbn.
  - lra.
  - unfold Rsum in IH. rewrite IH. lra.
Qed.

Lemma loc_list_positive (series : gmap Z R) (labels : list Z) (ms : list R) :
  (∀ i m, series !! i = Some m → 0 < m) →
  loc_list series labels = inr ms →
  Forall (λ m, 0 < m) ms.
Proof.
  intros Hpos. revert ms.
  induction labels as [| i labels IH]; intros ms H; cbn in H.
  - injection H as <-. constructor.
  - destruct (series !! i) as [m |] eqn:Hi; [| discriminate].
    destruct (loc_list series labels) as [e | ms'] eqn:Hrec; [discriminate |].
    cbn in H. injection H as <-. constructor; eauto.
Qed.

Lemma mass_fractions_positive (labels : list Z) (ms : list R)
    (rows : list solar_row) :
  Forall (λ m, 0 < m) ms →
  cells_positive
    (zip labels (zip_with (λ m row, m * Rpower 10 (Value row)) ms rows)).
Proof.
  intros Hms. revert labels rows.
  induction Hms as [| m ms Hm _ IH]; intros labels rows.
  - destruct labels; constructor.
  - destruct rows as [| row rows]; [destruct labels; constructor |].
    destruct labels as [| i labels]; [constructor |].
    cbn. constructor; [| apply IH].
    cbn. apply Rmult_lt_0_compat; [exact Hm |]. apply exp_pos.
Qed.

Lemma scaled_cell_positive (v k k0 : R) : 0 < v → 0 < k → 0 < k0 → 0 < v * k / k0.
Proof.
  intros Hv Hk Hk0. apply Rdiv_lt_0_compat; [| exact Hk0].
  apply Rmult_lt_0_compat; assumption.
Qed.

Lemma scale_label_positive (label : Z) (k k0 : R) (df df' : frame) :
  0 < k → 0 < k0 → cells_positive df →
  scale_label label k k0 df = inr df' →
  cells_positive df' ∧ df' ≠ [].
Proof.
  intros Hk Hk0 Hdf. unfold scale_label.
  destruct (has_label label df) eqn:Hl; [| discriminate].
  intros H. injection H as <-. split.
  - apply Forall_fmap. eapply Forall_impl; [exact Hdf |].
    intros row Hrow. cbn. destruct (row.1 =? label)%Z; [| exact Hrow].
    cbn. apply scaled_cell_positive; assumption.
  - destruct df; [discriminate | discriminate].
Qed.

Lemma scale_from_positive (label : Z) (k k0 : R) (df : frame) :
  0 < k → 0 < k0 → cells_positive df →
  cells_positive (scale_from label k k0 df).
Proof.
  intros Hk Hk0 Hdf.
  apply Forall_fmap. eapply Forall_impl; [exact Hdf |].
  intros row Hrow. cbn. destruct (label <=? row.1)%Z; [| exact Hrow].
  cbn. apply scaled_cell_positive; assumption.
Qed.

Lemma column_sum_positive (df : frame) :
  cells_positive df → df ≠ [] → 0 < column_sum df.
Proof.
  intros Hdf Hne. unfold column_sum.
  destruct Hdf as [| row df Hrow Hdf]; [congruence |].
  cbn. clear Hne.
  assert (0 <= Rsum (snd <$> df)) as Hrest.
  { induction Hdf as [| row' df' Hrow' _ IH]; cbn; [lra |].
    unfold Rsum in IH. lra. }
  unfold Rsum in Hrest. lra.
Qed.

Lemma asplund_defaults_positive :
  0 < ASPLUND_DEFAULT_HELIUM_MASS_FRACTION_Y
  ∧ 0 < ASPLUND_DEFAULT_HEAVY_ELEMENTS_MASS_FRACTION_Z.
Proof.
  unfold ASPLUND_DEFAULT_HELIUM_MASS_FRACTION_Y,
    ASPLUND_DEFAULT_HEAVY_ELEMENTS_MASS_FRACTION_Z.
  split; lra.
Qed.

(** C10 (amended): for a table indexed by increasing atomic number, atom data
    whose atomic masses are all positive, and positive [helium_mass_frac_Y]
    and [heavy_metal_mass_frac_Z], the column of every frame returned by
    [create_scaled_solar_profile] sums to 1 (exact arithmetic). *)
Theorem scaled_solar_profile_sums_to_one
    (asplund_2009_processed : list solar_row) (atom_data_mass : gmap Z R)
    (helium_mass_frac_Y heavy_metal_mass_frac_Z : R)
    (final_atomic_number : option Z) (df : frame) :
  StronglySorted Z.lt (atomic_number <$> asplund_2009_processed) →
  (∀ i m, atom_data_mass !! i = Some m → 0 < m) →
  0 < helium_mass_frac_Y →
  0 < heavy_metal_mass_frac_Z →
  create_scaled_solar_profile asplund_2009_processed atom_data_mass
    helium_mass_frac_Y heavy_metal_mass_frac_Z final_atomic_number = inr df →
  column_sum df = 1.
Proof.
  intros _ Hmass HY HZ. unfold create_scaled_solar_profile.
  set (rows := match final_atomic_number with
               | Some n => filter _ _
               | None => _
               end).
  destruct (loc_list atom_data_mass (atomic_number <$> rows))
    as [e | ms] eqn:Hms; [discriminate |].
  cbn [mbind result_bind].
  destruct (scale_label 2 _ _ _) as [e | sv] eqn:Hsv; [discriminate |].
  cbn [mret result_ret]. intros H. injection H as <-.
  destruct asplund_defaults_positive as [HY0 HZ0].
  apply scale_label_positive in Hsv as [Hpos Hne];
    [| assumption | assumption
     | apply mass_fractions_positive;
       eapply loc_list_positive; eassumption].
  pose proof (scale_from_positive 3 heavy_metal_mass_frac_Z
                ASPLUND_DEFAULT_HEAVY_ELEMENTS_MASS_FRACTION_Z sv HZ HZ0 Hpos)
    as Hpos'.
  assert (scale_from 3 heavy_metal_mass_frac_Z
            ASPLUND_DEFAULT_HEAVY_ELEMENTS_MASS_FRACTION_Z sv ≠ []) as Hne'.
  { destruct sv; [congruence | discriminate]. }
  pose proof (column_sum_positive _ Hpos' Hne') as Htot.
  rewrite column_sum_div_column. field. lra.
Qed.

End ScaledSolarProfile.

(** * The model at work on concrete inputs *)

Section Samples.

Open Scope R_scope.

Lemma sqrt_three_fifths : 0 < sqrt (3 / 5) < 1.
Proof.
  split.
  - apply sqrt_lt_R0. lra.
  - apply Rlt_le_trans with (sqrt 1); [apply sqrt_lt_1; lra |].
    rewrite sqrt_1. lra.
Qed.

Lemma inv_sqrt_three : 0 < / sqrt 3 < 1.
Proof.
  assert (1 < sqrt 3) as H.
  { apply Rle_lt_trans with (sqrt 1); [rewrite sqrt_1; lra |].
    apply sqrt_lt_1; lra. }
  split.
  - apply Rinv_0_lt_compat. lra.
  - apply Rlt_le_trans with (/ 1); [| rewrite Rinv_1; lra].
    apply Rinv_lt_contravar; lra.
Qed.

(** The tabulated nodes are the roots of the Legendre polynomials of degree
    1, 2 and 3. *)
Lemma sample_nodes_are_legendre_roots :
  sample.legendre 1 0 = 0
  ∧ Forall (λ x, sample.legendre 2 x = 0) [- / sqrt 3; / sqrt 3]
  ∧ Forall (λ x, sample.legendre 3 x = 0) [- sqrt (3 / 5); 0; sqrt (3 / 5)].
Proof.
  assert (sqrt 3 * sqrt 3 = 3) as H3 by (apply sqrt_sqrt; lra).
  assert (sqrt (3 / 5) * sqrt (3 / 5) = 3 / 5) as H35 by (apply sqrt_sqrt; lra).
  assert (sqrt 3 ≠ 0) as Hnz by (intros E; rewrite E in H3; lra).
  assert (/ sqrt 3 * / sqrt 3 = / 3) as Hi3.
  { rewrite <- Rinv_mult, H3. reflexivity. }
  unfold sample.legendre. cbn.
  split; [reflexivity |].
  split; repeat constructor; cbn.
  - replace ((2 * 0 + 3) * - / sqrt 3 * - / sqrt 3 - (0 + 1) * 1)
      with (3 * (/ sqrt 3 * / sqrt 3) - 1) by ring.
    rewrite Hi3. lra.
  - replace ((2 * 0 + 3) * / sqrt 3 * / sqrt 3 - (0 + 1) * 1)
      with (3 * (/ sqrt 3 * / sqrt 3) - 1) by ring.
    rewrite Hi3. lra.
  - set (s := sqrt (3 / 5)) in *.
    replace (((2 * 1 + 3) * - s * (((2 * 0 + 3) * - s * - s - (0 + 1) * 1) / (0 + 2))
              - (1 + 1) * - s) / (1 + 2))
      with (- s * (5 * (s * s) - 3) / 2) by field.
    rewrite H35. lra.
  - lra.
  - set (s := sqrt (3 / 5)) in *.
    replace (((2 * 1 + 3) * s * (((2 * 0 + 3) * s * s - (0 + 1) * 1) / (0 + 2))
              - (1 + 1) * s) / (1 + 2))
      with (s * (5 * (s * s) - 3) / 2) by field.
    rewrite H35. lra.
Qed.

Lemma sample_nodes3_in_range :
  Forall (λ t, -1 < t < 1) [- sqrt (3 / 5); 0; sqrt (3 / 5)].
Proof.
  pose proof sqrt_three_fifths as [Hlo Hhi].
  repeat constructor; lra.
Qed.

Lemma sample_nodes3_increasing :
  strictly_increasing [- sqrt (3 / 5); 0; sqrt (3 / 5)].
Proof.
  pose proof sqrt_three_fifths as [Hlo Hhi].
  intros i j a b Hij Ha Hb.
  destruct i as [| [| [| i]]]; destruct j as [| [| [| j]]];
    cbn in Ha, Hb; try discriminate; try lia;
    injection Ha as <-; injection Hb as <-; lra.
Qed.

Lemma sample_masses3_positive (i : Z) (m : R) :
  sample.masses3 !! i = Some m → 0 < m.
Proof.
  unfold sample.masses3. intros H.
  repeat (apply lookup_insert_Some in H as [[_ <-] | [_ H]]; [lra |]).
  rewrite lookup_empty in H. discriminate.
Qed.

End Samples.

(** ** Instances of the theorems, and inputs on which the unamended
       statements fail *)

(** Three angles, five frequencies, ten depth points: the stored weights
    sum to pi. *)
Lemma I_nus_weights_sum_to_pi_witness :
  ∃ (r : ref) (w1 : @World unit unit unit) (rf : RadiationField)
    (ws : list R),
    RadiationField_new sample.leggauss sample.nus5 tt (mk_StellarModel 10) 3
      sample.world0 = (inr r, w1)
    ∧ heap w1 !! r = Some rf
    ∧ I_nus_weights rf = Some ws
    ∧ Rsum ws = PI.
Proof.
  apply (I_nus_weights_sum_to_pi sample.leggauss sample.nus5 tt
           (mk_StellarModel 10) 3
           [- sqrt (3 / 5); 0; sqrt (3 / 5)]%R [5 / 9; 8 / 9; 5 / 9]%R
           sample.world0).
  - lia.
  - reflexivity.
  - cbn. lra.
  - cbn. lia.
Defined.

(** With the two-point rule (weights 1 and 1) the stored weights are pi/2
    and pi/2: their sum is not pi/2. *)
Lemma I_nus_weights_sum_is_not_half_pi :
  ∃ (r : ref) (w1 : @World unit unit unit) (rf : RadiationField)
    (ws : list R),
    RadiationField_new sample.leggauss sample.nus5 tt (mk_StellarModel 10) 2
      sample.world0 = (inr r, w1)
    ∧ heap w1 !! r = Some rf
    ∧ I_nus_weights rf = Some ws
    ∧ Rsum ws ≠ (PI / 2)%R.
Proof.
  eexists _, _, _, _.
  split; [apply (new_ok sample.leggauss) with (x := [- / sqrt 3; / sqrt 3]%R)
                                            (w := [1; 1]%R);
          [reflexivity | cbn; lia] |].
  split; [reflexivity |]. split; [reflexivity |].
  cbn. unfold np.pi. pose proof PI_RGT_0. lra.
Qed.

Lemma thetas_and_weights_from_nodes_witness :
  ∃ (r : ref) (w1 : @World unit unit unit) (rf : RadiationField)
    (th ws : list R),
    RadiationField_new sample.leggauss sample.nus5 tt (mk_StellarModel 10) 3
      sample.world0 = (inr r, w1)
    ∧ heap w1 !! r = Some rf
    ∧ thetas rf = Some th
    ∧ I_nus_weights rf = Some ws
    ∧ len th = 3
    ∧ len ws = 3
    ∧ (∀ (i : nat) (xi : R),
         [- sqrt (3 / 5); 0; sqrt (3 / 5)]%R !! i = Some xi →
         th !! i = Some (xi / 2 + PI / 4)%R)
    ∧ (∀ (i : nat) (wi : R),
         [5 / 9; 8 / 9; 5 / 9]%R !! i = Some wi →
         ws !! i = Some (wi * (PI / 2))%R)
    ∧ Forall (λ θ, (0 < θ < PI / 2)%R) th.
Proof.
  apply (thetas_and_weights_from_nodes sample.leggauss sample.nus5 tt
           (mk_StellarModel 10) 3
           [- sqrt (3 / 5); 0; sqrt (3 / 5)]%R [5 / 9; 8 / 9; 5 / 9]%R
           sample.world0).
  - lia.
  - reflexivity.
  - reflexivity.
  - reflexivity.
  - exact sample_nodes3_in_range.
  - cbn. lia.
Defined.

Lemma thetas_strictly_increasing_witness :
  ∃ (r : ref) (w1 : @World unit unit unit) (rf : RadiationField)
    (th : list R),
    RadiationField_new sample.leggauss sample.nus5 tt (mk_StellarModel 10) 3
      sample.world0 = (inr r, w1)
    ∧ heap w1 !! r = Some rf
    ∧ thetas rf = Some th
    ∧ strictly_increasing th.
Proof.
  apply (thetas_strictly_increasing sample.leggauss sample.nus5 tt
           (mk_StellarModel 10) 3
           [- sqrt (3 / 5); 0; sqrt (3 / 5)]%R [5 / 9; 8 / 9; 5 / 9]%R
           sample.world0).
  - lia.
  - reflexivity.
  - exact sample_nodes3_increasing.
  - cbn. lia.
Defined.

(** Frequencies of length 5, 10 depth points and 3 angles: [F_nu] has shape
    (10, 5) and [I_nus] has shape (10, 5, 3), all zeros. *)
Lemma construction_shapes_and_zeros_witness :
  ∃ (r : ref) (w1 : @World unit unit unit) (rf : RadiationField)
    (f i : np.ndarray) (th ws : list R),
    RadiationField_new sample.leggauss sample.nus5 tt (mk_StellarModel 10) 3
      sample.world0 = (inr r, w1)
    ∧ heap w1 !! r = Some rf
    ∧ F_nu rf = Some f ∧ I_nus rf = Some i
    ∧ thetas rf = Some th ∧ I_nus_weights rf = Some ws
    ∧ np.shape f = [10; 5]
    ∧ np.shape i = [10; 5; 3]
    ∧ Forall (λ v, v = 0%R) (np.data f)
    ∧ Forall (λ v, v = 0%R) (np.data i)
    ∧ len (np.data f) = 10 * 5
    ∧ len (np.data i) = 10 * 5 * 3
    ∧ len th = 3 ∧ len ws = 3.
Proof.
  apply (construction_shapes_and_zeros sample.leggauss sample.nus5 tt
           (mk_StellarModel 10) 3
           [- sqrt (3 / 5); 0; sqrt (3 / 5)]%R [5 / 9; 8 / 9; 5 / 9]%R
           sample.world0).
  - discriminate.
  - cbn. lia.
  - lia.
  - reflexivity.
  - reflexivity.
  - reflexivity.
Defined.

(** An empty frequency grid, and a depth count of zero, are accepted: the
    constructor returns an instance whose arrays have no cell. *)
Lemma construction_accepts_empty_grid_and_zero_depth :
  RadiationField_new sample.leggauss [] tt (mk_StellarModel 10) 1
    sample.world0
  = (inr 0%nat,
     mk_World
       [mk_RadiationField (Some []) (Some tt)
          (Some (Opacities_new [] (mk_StellarModel 10)))
          (Some (np.mk_ndarray [10; 0] []))
          (Some [(0 / 2 + 0.5 * np.pi / 2)%R])
          (Some [(2 * np.pi / 2)%R])
          (Some (np.mk_ndarray [10; 0; 1] []))]
       [EvZeros [10; 0]; EvLeggauss 1; EvZeros [10; 0; 1]])
  ∧ RadiationField_new sample.leggauss sample.nus5 tt (mk_StellarModel 0) 1
      sample.world0
    = (inr 0%nat,
       mk_World
         [mk_RadiationField (Some sample.nus5) (Some tt)
            (Some (Opacities_new sample.nus5 (mk_StellarModel 0)))
            (Some (np.mk_ndarray [0; 5] []))
            (Some [(0 / 2 + 0.5 * np.pi / 2)%R])
            (Some [(2 * np.pi / 2)%R])
            (Some (np.mk_ndarray [0; 5; 1] []))]
         [EvZeros [0; 5]; EvLeggauss 1; EvZeros [0; 5; 1]]).
Proof. split; reflexivity. Qed.

(** No angle and ten depth points: the [ValueError] of [leggauss] is
    raised. *)
Lemma construction_errors_witness :
  ∃ (msg : string) (w1 : @World unit unit unit),
    RadiationField_new sample.leggauss sample.nus5 tt (mk_StellarModel 10) 0
      sample.world0 = (inl (ValueError msg), w1).
Proof.
  refine (proj1
            (construction_errors sample.leggauss sample.nus5 tt
               (mk_StellarModel 10) 0 sample.world0 _) _).
  - intros deg Hdeg. unfold sample.leggauss.
    destruct (deg <=? 0) eqn:E.
    + eexists. reflexivity.
    + lia.
  - right. lia.
Defined.

(** With [num_of_thetas = 0] the error of [leggauss] surfaces when the
    (10, 5) array [F_nu] has already been allocated and stored. *)
Lemma quadrature_error_follows_allocation :
  ∃ (e : exn) (w1 : @World unit unit unit) (o : RadiationField),
    RadiationField_new sample.leggauss sample.nus5 tt (mk_StellarModel 10) 0
      sample.world0 = (inl e, w1)
    ∧ EvZeros [10; 5] ∈ trace w1
    ∧ heap w1 = [o]
    ∧ F_nu o = Some (np.zeros_of [10; 5]).
Proof.
  eexists _, _, _. split; [reflexivity |]. cbn [trace heap].
  split; [apply list_elem_of_here |]. split; reflexivity.
Qed.

Lemma quadrature_error_after_F_nu_witness :
  ∃ (w1 : @World unit unit unit) (o : RadiationField),
    RadiationField_new sample.leggauss sample.nus5 tt (mk_StellarModel 10) 0
      sample.world0
    = (inl (ValueError "deg must be a positive integer"), w1)
    ∧ trace w1 = [EvZeros [10; 5]]
    ∧ heap w1 = [o]
    ∧ F_nu o = Some (np.zeros_of [10; 5])
    ∧ thetas o = None ∧ I_nus_weights o = None ∧ I_nus o = None.
Proof.
  apply (quadrature_error_after_F_nu sample.leggauss sample.nus5 tt
           (mk_StellarModel 10) 0
           (ValueError "deg must be a positive integer") sample.world0).
  - lia.
  - reflexivity.
  - cbn. lia.
Defined.

(** A complete run of the pipeline with solvers that return: the fresh
    instance is constructed, handed to [calc_alphas], then to [raytrace],
    and returned. *)
Lemma pipeline_run_example :
  create_stellar_radiation_field sample.leggauss sample.calc_alphas
    sample.raytrace tt sample.nus5 (mk_StellarModel 10) tt sample.config3
    sample.world0
  = (inr 0%nat,
     mk_World
       [initialised sample.nus5 tt (mk_StellarModel 10)
          [- sqrt (3 / 5); 0; sqrt (3 / 5)]%R [5 / 9; 8 / 9; 5 / 9]%R]
       [EvZeros [10; 5]; EvLeggauss 3; EvZeros [10; 5; 3];
        EvLogInfo "Calculating alphas";
        EvCall (CalcAlphas tt (mk_StellarModel 10) 0%nat tt 1);
        EvReturn (CalcAlphas tt (mk_StellarModel 10) 0%nat tt 1);
        EvLogInfo "Raytracing";
        EvCall (Raytrace (mk_StellarModel 10) 0%nat 1);
        EvReturn (Raytrace (mk_StellarModel 10) 0%nat 1)]).
Proof. reflexivity. Qed.

(** A failing opacity aggregator: its [KeyError] is the outcome of the
    pipeline and [raytrace] is never entered.  A failing ray integrator
    behind an opacity aggregator that returns: its [ValueError] is the
    outcome. *)
Lemma solver_errors_propagate_witness :
  create_stellar_radiation_field sample.leggauss sample.calc_alphas_failing
    sample.raytrace tt sample.nus5 (mk_StellarModel 10) tt sample.config3
    sample.world0
  = (inl (KeyError "missing species"),
     mk_World
       [initialised sample.nus5 tt (mk_StellarModel 10)
          [- sqrt (3 / 5); 0; sqrt (3 / 5)]%R [5 / 9; 8 / 9; 5 / 9]%R]
       [EvZeros [10; 5]; EvLeggauss 3; EvZeros [10; 5; 3];
        EvLogInfo "Calculating alphas";
        EvCall (CalcAlphas tt (mk_StellarModel 10) 0%nat tt 1)])
  ∧ create_stellar_radiation_field sample.leggauss sample.calc_alphas
      sample.raytrace_failing tt sample.nus5 (mk_StellarModel 10) tt
      sample.config3 sample.world0
    = (inl (ValueError "divergent ray integral"),
       mk_World
         [initialised sample.nus5 tt (mk_StellarModel 10)
            [- sqrt (3 / 5); 0; sqrt (3 / 5)]%R [5 / 9; 8 / 9; 5 / 9]%R]
         [EvZeros [10; 5]; EvLeggauss 3; EvZeros [10; 5; 3];
          EvLogInfo "Calculating alphas";
          EvCall (CalcAlphas tt (mk_StellarModel 10) 0%nat tt 1);
          EvReturn (CalcAlphas tt (mk_StellarModel 10) 0%nat tt 1);
          EvLogInfo "Raytracing";
          EvCall (Raytrace (mk_StellarModel 10) 0%nat 1)]).
Proof.
  split.
  - apply (proj1
             (solver_errors_propagate sample.leggauss
                sample.calc_alphas_failing sample.raytrace tt sample.nus5
                (mk_StellarModel 10) tt sample.config3 sample.world0
                (mk_World
                   [initialised sample.nus5 tt (mk_StellarModel 10)
                      [- sqrt (3 / 5); 0; sqrt (3 / 5)]%R
                      [5 / 9; 8 / 9; 5 / 9]%R]
                   [EvZeros [10; 5]; EvLeggauss 3; EvZeros [10; 5; 3]])
                0%nat eq_refl)).
    reflexivity.
  - apply (proj2
             (solver_errors_propagate sample.leggauss sample.calc_alphas
                sample.raytrace_failing tt sample.nus5 (mk_StellarModel 10)
                tt sample.config3 sample.world0
                (mk_World
                   [initialised sample.nus5 tt (mk_StellarModel 10)
                      [- sqrt (3 / 5); 0; sqrt (3 / 5)]%R
                      [5 / 9; 8 / 9; 5 / 9]%R]
                   [EvZeros [10; 5]; EvLeggauss 3; EvZeros [10; 5; 3]])
                0%nat eq_refl)
             (ValueError "divergent ray integral")
             [initialised sample.nus5 tt (mk_StellarModel 10)
                [- sqrt (3 / 5); 0; sqrt (3 / 5)]%R [5 / 9; 8 / 9; 5 / 9]%R]).
    + reflexivity.
    + reflexivity.
Defined.

(** The first three elements with their atomic weights and the default
    helium and metal fractions: the profile is returned and sums to 1. *)
Lemma scaled_solar_profile_sums_to_one_witness :
  ∃ df : util.frame,
    util.create_scaled_solar_profile sample.asplund3 sample.masses3
      util.ASPLUND_DEFAULT_HELIUM_MASS_FRACTION_Y
      util.ASPLUND_DEFAULT_HEAVY_ELEMENTS_MASS_FRACTION_Z None = inr df
    ∧ util.column_sum df = 1%R.
Proof.
  eexists. split; [reflexivity |].
  apply (scaled_solar_profile_sums_to_one sample.asplund3 sample.masses3
           util.ASPLUND_DEFAULT_HELIUM_MASS_FRACTION_Y
           util.ASPLUND_DEFAULT_HEAVY_ELEMENTS_MASS_FRACTION_Z None).
  - repeat constructor; lia.
  - exact sample_masses3_positive.
  - exact (proj1 asplund_defaults_positive).
  - exact (proj2 asplund_defaults_positive).
  - reflexivity.
Defined.

(** Atom data whose masses are all zero: the profile is returned, the total
    it was divided by is zero (every cell is 0/0, not a number in floating
    point) and its column does not sum to 1. *)
Lemma zero_masses_profile_does_not_sum_to_one :
  ∃ df : util.frame,
    util.create_scaled_solar_profile sample.asplund3 sample.masses_zero
      util.ASPLUND_DEFAULT_HELIUM_MASS_FRACTION_Y
      util.ASPLUND_DEFAULT_HEAVY_ELEMENTS_MASS_FRACTION_Z None = inr df
    ∧ util.column_sum df ≠ 1%R.
Proof.
  eexists. split; [reflexivity |].
  rewrite column_sum_div_column.
  cbn. unfold Rdiv. rewrite !Rmult_0_l. lra.
Qed.

(** * Further properties of the constructor and of the pipeline *)

Section ConstructionOutcomes.

Context {SourceFunction StellarPlasma OpacityConfig : Type}.

Variable leggauss : Z -> exn + (list R * list R).

Local Abbreviation World := (@World SourceFunction StellarPlasma OpacityConfig).
Local Abbreviation RadiationField := (@RadiationField SourceFunction).
Local Abbreviation RF_new :=
  (@RadiationField_new SourceFunction StellarPlasma OpacityConfig leggauss).

(** The three ways a constructor call can end. *)
Lemma new_run nus src stellar_model n (w0 : World) :
  RF_new nus src stellar_model n w0
  = if decide (no_of_depth_points stellar_model < 0)
    then (inl (ValueError "negative dimensions are not allowed"),
          mk_World
            (heap w0
               ++ [after_opacities nus src stellar_model])
            (trace w0))
    else match leggauss n with
         | inl e =>
             (inl e,
              mk_World
                (heap w0
                   ++ [after_F_nu nus src stellar_model])
                (trace w0 ++
                   [EvZeros [no_of_depth_points stellar_model;
                             len nus]]))
         | inr (x, w) =>
             (inr (length (heap w0)),
              mk_World
                (heap w0
                   ++ [initialised nus src stellar_model
                         x w])
                (trace w0 ++
                   [EvZeros [no_of_depth_points stellar_model;
                             len nus];
                    EvLeggauss n;
                    EvZeros [no_of_depth_points stellar_model;
                             len nus; len x]]))
         end.
Proof.
  destruct (decide (no_of_depth_points stellar_model < 0)) as [Hd | Hd].
  - apply new_negative_depth, Hd.
  - destruct (leggauss n) as [e | [x w]] eqn:Hlg.
    + apply new_leggauss_err; [exact Hlg | lia].
    + apply new_ok; [exact Hlg | lia].
Qed.


(** X2: with a negative depth count the [ValueError] of [np.zeros] is what
    the constructor raises whatever [num_of_thetas] is (even one that
    [leggauss] would reject): [leggauss] is not reached, no array has been
    allocated, and only [frequencies], [source_function] and [opacities] are
    set on the abandoned instance. *)
Theorem negative_depth_error_comes_first
    nus src stellar_model n (w0 : World) :
  no_of_depth_points stellar_model < 0 →
  ∃ o : RadiationField,
    RF_new nus src stellar_model n w0
    = (inl (ValueError "negative dimensions are not allowed"),
       mk_World (heap w0 ++ [o]) (trace w0))
    ∧ frequencies o = Some nus
    ∧ source_function o = Some src
    ∧ opacities o = Some (Opacities_new nus stellar_model)
    ∧ F_nu o = None ∧ thetas o = None ∧ I_nus_weights o = None
    ∧ I_nus o = None.
Proof.
  intros Hd. eexists. split; [apply new_negative_depth, Hd |].
  repeat (split; [reflexivity |]). reflexivity.
Qed.

(** X3: however a constructor call ends, it has added exactly one object at
    the end of the heap and changed no object that was there; the trace has
    only grown, by array allocations and the [leggauss] call; and the new
    object carries the [frequencies] and [source_function] it was given. *)
Theorem construction_frame
    nus src stellar_model n (w0 w1 : World)
    (res : exn + ref) :
  RF_new nus src stellar_model n w0 = (res, w1) →
  ∃ (o : RadiationField) (evs : list event),
    heap w1 = heap w0 ++ [o]
    ∧ (∀ (r : ref) (old : RadiationField),
         heap w0 !! r = Some old → heap w1 !! r = Some old)
    ∧ trace w1 = trace w0 ++ evs
    ∧ Forall (λ ev, (∃ shp, ev = EvZeros shp) ∨ ev = EvLeggauss n) evs
    ∧ frequencies o = Some nus
    ∧ source_function o = Some src.
Proof.
  rewrite new_run. intros H.
  assert (∀ (o : RadiationField) (r : ref) (old : RadiationField),
            heap w0 !! r = Some old → (heap w0 ++ [o]) !! r = Some old)
    as Hkeep.
  { intros o r old Hr. unfold Heap in *. apply lookup_app_l_Some, Hr. }
  destruct (decide (no_of_depth_points stellar_model < 0)).
  - injection H as <- <-. eexists _, []. cbn [heap trace].
    split; [reflexivity |]. split; [apply Hkeep |].
    split; [rewrite app_nil_r; reflexivity |].
    split; [constructor |]. split; reflexivity.
  - destruct (leggauss n) as [e | [x w]]; injection H as <- <-;
      eexists _, _; cbn [heap trace];
      (split; [reflexivity |]); (split; [apply Hkeep |]);
      (split; [reflexivity |]);
      (split; [repeat constructor; eauto |]); split; reflexivity.
Qed.

(** X4: an instance the constructor returns has all seven attributes set,
    whatever [leggauss] returned: [F_nu] is the zero array of shape
    (depth points, len(frequencies)); [thetas] has as many entries as
    [leggauss] returned nodes and [I_nus_weights] as many as it returned
    weights; and [I_nus] is the zero array whose shape is that of [F_nu]
    followed by [len(thetas)] (not by [num_of_thetas]). *)
Theorem constructed_instance_is_consistent
    nus src stellar_model n (w0 w1 : World) (r : ref) :
  RF_new nus src stellar_model n w0 = (inr r, w1) →
  ∃ (rf : RadiationField) (x w th ws : list R),
    leggauss n = inr (x, w)
    ∧ heap w1 !! r = Some rf
    ∧ frequencies rf = Some nus
    ∧ source_function rf = Some src
    ∧ opacities rf = Some (Opacities_new nus stellar_model)
    ∧ F_nu rf
      = Some (np.zeros_of [no_of_depth_points stellar_model; len nus])
    ∧ thetas rf = Some th ∧ len th = len x
    ∧ I_nus_weights rf = Some ws ∧ len ws = len w
    ∧ I_nus rf
      = Some (np.zeros_of [no_of_depth_points stellar_model; len nus;
                           len th]).
Proof.
  rewrite new_run. intros H.
  destruct (decide (no_of_depth_points stellar_model < 0)); [discriminate |].
  destruct (leggauss n) as [e | [x w]]; [discriminate |].
  injection H as <- <-.
  eexists _, x, w, _, _. split; [reflexivity |].
  cbn [heap]. split; [apply lookup_fresh |].
  do 4 (split; [reflexivity |]).
  split; [reflexivity |]. split; [apply len_fmap |].
  split; [reflexivity |]. split; [apply len_fmap |].
  cbn. rewrite len_fmap. reflexivity.
Qed.

(** X5: two constructor calls in a row hand out different references, and
    the second call leaves the first instance exactly as it was. *)
Theorem constructions_are_independent
    nus1 src1 stellar_model1 n1
    nus2 src2 stellar_model2 n2
    (w0 w1 w2 : World) (r1 r2 : ref) :
  RF_new nus1 src1 stellar_model1 n1 w0 = (inr r1, w1) →
  RF_new nus2 src2 stellar_model2 n2 w1 = (inr r2, w2) →
  r1 ≠ r2
  ∧ is_Some (heap w1 !! r1)
  ∧ heap w2 !! r1 = heap w1 !! r1.
Proof.
  rewrite !new_run. intros H1 H2.
  destruct (decide (no_of_depth_points stellar_model1 < 0)); [discriminate |].
  destruct (leggauss n1) as [e1 | [x1 v1]]; [discriminate |].
  destruct (decide (no_of_depth_points stellar_model2 < 0)); [discriminate |].
  destruct (leggauss n2) as [e2 | [x2 v2]]; [discriminate |].
  injection H1 as <- <-. injection H2 as <- <-. cbn [heap].
  unfold Heap in *. rewrite length_app. cbn [length].
  split; [lia |].
  rewrite lookup_fresh. split; [eauto |].
  apply lookup_app_l_Some, (lookup_fresh (heap w0)).
Qed.

End ConstructionOutcomes.

Section AngularGrid.

Context {SourceFunction StellarPlasma OpacityConfig : Type}.

Variable leggauss : Z -> exn + (list R * list R).

Local Abbreviation World := (@World SourceFunction StellarPlasma OpacityConfig).
Local Abbreviation RadiationField := (@RadiationField SourceFunction).
Local Abbreviation RF_new :=
  (@RadiationField_new SourceFunction StellarPlasma OpacityConfig leggauss).

(** What a returned instance holds as [thetas] and [I_nus_weights]. *)
Lemma new_inr_angles nus src stellar_model n x w (w0 w1 : World) (r : ref) :
  leggauss n = inr (x, w) →
  RF_new nus src stellar_model n w0 = (inr r, w1) →
  ∃ rf : RadiationField,
    heap w1 !! r = Some rf
    ∧ thetas rf = Some ((λ t, t / 2 + 0.5 * np.pi / 2)%R <$> x)
    ∧ I_nus_weights rf = Some ((λ v, v * np.pi / 2)%R <$> w).
Proof.
  intros Hlg. rewrite new_run, Hlg.
  destruct (decide (no_of_depth_points stellar_model < 0)); [discriminate |].
  intros H. injection H as <- <-. eexists. cbn [heap].
  split; [apply lookup_fresh |]. split; reflexivity.
Qed.

(** X6: when the nodes [leggauss] returned lie in [-1, 1], every stored
    angle lies within half a radian of pi/4: the angular grid covers
    [pi/4 - 1/2, pi/4 + 1/2], an interval of length 1, not the whole of
    (0, pi/2). *)
Theorem thetas_within_half_radian_of_quarter_pi
    nus src stellar_model n x w (w0 w1 : World) (r : ref) :
  leggauss n = inr (x, w) →
  Forall (λ t, (-1 <= t <= 1)%R) x →
  RF_new nus src stellar_model n w0 = (inr r, w1) →
  ∃ (rf : RadiationField) (th : list R),
    heap w1 !! r = Some rf
    ∧ thetas rf = Some th
    ∧ Forall (λ θ, (PI / 4 - 1 / 2 <= θ <= PI / 4 + 1 / 2)%R) th
    ∧ (∀ (i j : nat) (a b : R),
         th !! i = Some a → th !! j = Some b → (Rabs (a - b) <= 1)%R).
Proof.
  intros Hlg Hrange Hnew.
  destruct (new_inr_angles _ _ _ _ _ _ _ _ _ Hlg Hnew) as (rf & Hrf & Hth & _).
  assert (Forall (λ θ, (PI / 4 - 1 / 2 <= θ <= PI / 4 + 1 / 2)%R)
            ((λ t, t / 2 + 0.5 * np.pi / 2)%R <$> x)) as Hin.
  { apply Forall_fmap. eapply Forall_impl; [exact Hrange |].
    intros t Ht. cbn. rewrite mapped_angle. lra. }
  eexists _, _. split; [exact Hrf |]. split; [exact Hth |].
  split; [exact Hin |].
  intros i j a b Ha Hb. rewrite Forall_lookup in Hin.
  pose proof (Hin i a Ha). pose proof (Hin j b Hb).
  apply Rabs_le. lra.
Qed.

(** X7: when the nodes [leggauss] returned are symmetric about 0 (the node
    at position [i] from the end is the opposite of the node at position
    [i]), the stored angles are symmetric about pi/4: the angles at
    mirrored positions add up to pi/2. *)
Theorem thetas_symmetric_about_quarter_pi
    nus src stellar_model n x w (w0 w1 : World) (r : ref) :
  leggauss n = inr (x, w) →
  (∀ (i : nat) (t : R),
     x !! i = Some t → x !! (length x - 1 - i)%nat = Some (- t)%R) →
  RF_new nus src stellar_model n w0 = (inr r, w1) →
  ∃ (rf : RadiationField) (th : list R),
    heap w1 !! r = Some rf
    ∧ thetas rf = Some th
    ∧ ∀ (i : nat) (θ : R),
        th !! i = Some θ →
        ∃ θ', th !! (length th - 1 - i)%nat = Some θ'
              ∧ (θ + θ' = PI / 2)%R.
Proof.
  intros Hlg Hsym Hnew.
  destruct (new_inr_angles _ _ _ _ _ _ _ _ _ Hlg Hnew) as (rf & Hrf & Hth & _).
  eexists _, _. split; [exact Hrf |]. split; [exact Hth |].
  intros i θ Hi. rewrite length_fmap.
  rewrite list_lookup_fmap in Hi.
  destruct (x !! i) as [t |] eqn:Ht; [| discriminate].
  cbn in Hi. injection Hi as <-.
  eexists. rewrite list_lookup_fmap, (Hsym i t Ht). cbn.
  split; [reflexivity |]. unfold np.pi. lra.
Qed.

(** X8: the stored weights keep the sign of the weights [leggauss]
    returned and their proportions: each is the returned weight times
    pi/2, so positive weights stay positive and the stored weights sum to
    pi/2 times the sum of the returned ones. *)
Theorem I_nus_weights_scale_linearly
    nus src stellar_model n x w (w0 w1 : World) (r : ref) :
  leggauss n = inr (x, w) →
  RF_new nus src stellar_model n w0 = (inr r, w1) →
  ∃ (rf : RadiationField) (ws : list R),
    heap w1 !! r = Some rf
    ∧ I_nus_weights rf = Some ws
    ∧ Rsum ws = (PI / 2 * Rsum w)%R
    ∧ (Forall (λ v, (0 < v)%R) w → Forall (λ v, (0 < v)%R) ws).
Proof.
  intros Hlg Hnew.
  destruct (new_inr_angles _ _ _ _ _ _ _ _ _ Hlg Hnew) as (rf & Hrf & _ & Hws).
  eexists _, _. split; [exact Hrf |]. split; [exact Hws |].
  split; [rewrite Rsum_scaled_weights; lra |].
  intros Hpos. apply Forall_fmap. eapply Forall_impl; [exact Hpos |].
  intros v Hv. cbn. unfold np.pi. pose proof PI_RGT_0.
  apply Rdiv_lt_0_compat; [| lra]. apply Rmult_lt_0_compat; assumption.
Qed.

End AngularGrid.

Section PipelineOutcomes.

Context {SourceFunction StellarPlasma OpacityConfig : Type}.

Variable leggauss : Z -> exn + (list R * list R).
Variable calc_alphas :
  StellarPlasma -> StellarModel -> ref -> OpacityConfig -> Z ->
  @Heap SourceFunction -> (exn + unit) * @Heap SourceFunction.
Variable raytrace :
  StellarModel -> ref -> Z ->
  @Heap SourceFunction -> (exn + unit) * @Heap SourceFunction.
Variable blackbody_flux_at_nu : SourceFunction.

Local Abbreviation World := (@World SourceFunction StellarPlasma OpacityConfig).
Local Abbreviation RF_new :=
  (@RadiationField_new SourceFunction StellarPlasma OpacityConfig leggauss).
Local Abbreviation create :=
  (create_stellar_radiation_field leggauss calc_alphas raytrace
     blackbody_flux_at_nu).

(** X9: when the stellar model has a negative depth count, or [leggauss]
    rejects [config.no_of_thetas], [create_stellar_radiation_field] raises
    the constructor's error and stops there: nothing is logged and neither
    solver is entered (the trace holds array allocations only), and no
    solver has had the heap in hand (it is the heap the constructor left). *)
Theorem pipeline_stops_at_failed_construction
    tracing_nus stellar_model stellar_plasma config (w0 : World) :
  (no_of_depth_points stellar_model < 0
   ∨ ∃ e, leggauss (no_of_thetas config) = inl e) →
  ∃ (e : exn) (w1 : World) (evs : list event),
    create tracing_nus stellar_model stellar_plasma config w0 = (inl e, w1)
    ∧ RF_new tracing_nus blackbody_flux_at_nu stellar_model
        (no_of_thetas config) w0 = (inl e, w1)
    ∧ trace w1 = trace w0 ++ evs
    ∧ Forall (λ ev, ∃ shp, ev = EvZeros shp) evs.
Proof.
  intros Hbad.
  assert (∃ (e : exn) (w1 : World) (evs : list event),
            RF_new tracing_nus blackbody_flux_at_nu stellar_model
              (no_of_thetas config) w0 = (inl e, w1)
            ∧ trace w1 = trace w0 ++ evs
            ∧ Forall (λ ev, ∃ shp, ev = EvZeros shp) evs)
    as (e & w1 & evs & Hnew & Htr & Hevs).
  { rewrite new_run.
    destruct (decide (no_of_depth_points stellar_model < 0)) as [Hd | Hd].
    - eexists _, _, []. split; [reflexivity |]. cbn [trace].
      split; [rewrite app_nil_r; reflexivity | constructor].
    - destruct Hbad as [Hd' | [e He]]; [lia |]. rewrite He.
      eexists _, _, _. split; [reflexivity |]. cbn [trace].
      split; [reflexivity |]. repeat constructor. eauto. }
  exists e, w1, evs. split; [| auto].
  unfold create_stellar_radiation_field.
  erewrite bind_err by exact Hnew. reflexivity.
Qed.

End PipelineOutcomes.

(** * Further properties of the scaled solar profile *)

Section ScaledSolarProfileOutcomes.

Import util.
Open Scope R_scope.

Lemma loc_list_inr (series : gmap Z R) (labels : list Z) (ms : list R) :
  loc_list series labels = inr ms ↔ Forall2 (λ i m, series !! i = Some m) labels ms.
Proof.
  revert ms. induction labels as [| i labels IH]; intros ms; cbn.
  - split.
    + intros H. injection H as <-. constructor.
    + intros H. inversion H. reflexivity.
  - destruct (series !! i) as [m |] eqn:Hi.
    + destruct (loc_list series labels) as [e | ms'] eqn:Hrec; cbn.
      * split; [discriminate |]. intros H. inversion H as [| ? m' ? ms'' _ Hrest]; subst.
        apply IH in Hrest. discriminate.
      * split.
        -- intros H. injection H as <-. constructor; [exact Hi |].
           apply IH. reflexivity.
        -- intros H. inversion H as [| ? m' ? ms'' Hm Hrest]; subst.
           apply IH in Hrest. injection Hrest as <-.
           rewrite Hi in Hm. injection Hm as <-. reflexivity.
    + split; [discriminate |]. intros H.
      inversion H as [| ? m' ? ms'' Hm _]; subst. rewrite Hi in Hm. discriminate.
Qed.

Lemma loc_list_inl (series : gmap Z R) (labels : list Z) (e : exn) :
  loc_list series labels = inl e →
  e = KeyError "not in index" ∧ ∃ i, i ∈ labels ∧ series !! i = None.
Proof.
  induction labels as [| i labels IH]; cbn; [discriminate |].
  destruct (series !! i) as [m |] eqn:Hi.
  - destruct (loc_list series labels) as [e' | ms'] eqn:Hrec; cbn;
      [| discriminate].
    intros H. injection H as <-.
    destruct (IH eq_refl) as (-> & j & Hj & Hnone).
    split; [reflexivity |]. exists j. split; [right; exact Hj | exact Hnone].
  - intros H. injection H as <-. split; [reflexivity |].
    exists i. split; [left | exact Hi].
Qed.


Lemma fst_unscaled_frame (rows : list solar_row) (ms : list R) :
  length ms = length rows →
  fst <$> unscaled_frame rows ms = atomic_number <$> rows.
Proof.
  unfold unscaled_frame. intros Hlen. apply fst_zip.
  rewrite length_fmap, length_zip_with. lia.
Qed.

Lemma has_label_spec (label : Z) (df : frame) :
  has_label label df = true ↔ label ∈ fst <$> df.
Proof.
  unfold has_label. rewrite existsb_exists, list_elem_of_fmap. split.
  - intros (row & Hin & Heq). apply Z.eqb_eq in Heq.
    exists row. split; [congruence | apply list_elem_of_In, Hin].
  - intros (row & -> & Hin). exists row.
    split; [apply list_elem_of_In, Hin | apply Z.eqb_refl].
Qed.

(** The frame once helium is scaled, and the frame before the final
    division. *)
Lemma fst_scaled_rows (test : Z -> bool) (k k0 : R) (df : frame) :
  fst <$> ((λ row, if test row.1 then (row.1, row.2 * k / k0) else row) <$> df)
  = fst <$> df.
Proof.
  rewrite <- list_fmap_compose. apply list_fmap_ext.
  intros i row _. cbn. destruct (test row.1); reflexivity.
Qed.

Lemma fst_div_column (df : frame) (total : R) :
  fst <$> div_column df total = fst <$> df.
Proof.
  unfold div_column. rewrite <- list_fmap_compose. reflexivity.
Qed.

(** What a call that returns has computed, step by step. *)
Lemma create_inr_inv table masses Y Zm fan (df : frame) :
  create_scaled_solar_profile table masses Y Zm fan = inr df →
  ∃ (ms : list R) (sv : frame),
    loc_list masses (atomic_number <$> selected_rows fan table) = inr ms
    ∧ length ms = length (selected_rows fan table)
    ∧ scale_label 2 Y ASPLUND_DEFAULT_HELIUM_MASS_FRACTION_Y
        (unscaled_frame (selected_rows fan table) ms) = inr sv
    ∧ df = div_column
             (scale_from 3 Zm ASPLUND_DEFAULT_HEAVY_ELEMENTS_MASS_FRACTION_Z sv)
             (column_sum
                (scale_from 3 Zm ASPLUND_DEFAULT_HEAVY_ELEMENTS_MASS_FRACTION_Z
                   sv)).
Proof.
  unfold create_scaled_solar_profile.
  change (match fan with
          | Some n => filter (λ row, (atomic_number row <= n)%Z) table
          | None => table
          end) with (selected_rows fan table).
  destruct (loc_list masses (atomic_number <$> selected_rows fan table))
    as [e | ms] eqn:Hms; [discriminate |].
  cbn [mbind result_bind].
  change (zip (atomic_number <$> selected_rows fan table)
            (zip_with (λ m row, m * Rpower 10 (Value row)) ms
               (selected_rows fan table)))
    with (unscaled_frame (selected_rows fan table) ms).
  destruct (scale_label 2 Y _ _) as [e | sv] eqn:Hsv; [discriminate |].
  cbn [mret result_ret]. intros H. injection H as <-.
  exists ms, sv.
  split; [first [exact Hms | reflexivity] |].
  split; [| split; first [exact Hsv | reflexivity]].
  apply loc_list_inr, Forall2_length in Hms.
  rewrite length_fmap in Hms. lia.
Qed.

Lemma create_unfold table masses Y Zm fan :
  create_scaled_solar_profile table masses Y Zm fan
  = (ms ← loc_list masses (atomic_number <$> selected_rows fan table);
     sv ← scale_label 2 Y ASPLUND_DEFAULT_HELIUM_MASS_FRACTION_Y
            (unscaled_frame (selected_rows fan table) ms);
     mret (div_column
             (scale_from 3 Zm ASPLUND_DEFAULT_HEAVY_ELEMENTS_MASS_FRACTION_Z
                sv)
             (column_sum
                (scale_from 3 Zm
                   ASPLUND_DEFAULT_HEAVY_ELEMENTS_MASS_FRACTION_Z sv)))).
Proof. destruct fan; reflexivity. Qed.

Lemma scale_label_inr (label : Z) (k k0 : R) (df sv : frame) :
  scale_label label k k0 df = inr sv →
  label ∈ fst <$> df
  ∧ sv = (λ row, if (row.1 =? label)%Z then (row.1, row.2 * k / k0) else row)
         <$> df.
Proof.
  unfold scale_label. destruct (has_label label df) eqn:Hl; [| discriminate].
  intros H. injection H as <-. split; [apply has_label_spec, Hl | reflexivity].
Qed.

Lemma scale_label_inl (label : Z) (k k0 : R) (df : frame) (e : exn) :
  scale_label label k k0 df = inl e → e = KeyError "label" ∧ label ∉ fst <$> df.
Proof.
  unfold scale_label. destruct (has_label label df) eqn:Hl; [discriminate |].
  intros H. injection H as <-. split; [reflexivity |].
  intros Hin. apply has_label_spec in Hin. congruence.
Qed.



(** X12: a [final_atomic_number] below 2 always ends in a [KeyError]: the
    filter has removed helium, which the helium scaling then looks up. *)
Theorem final_atomic_number_below_helium_raises table masses Y Zm (n : Z) :
  (n < 2)%Z →
  ∃ msg,
    create_scaled_solar_profile table masses Y Zm (Some n)
    = inl (KeyError msg).
Proof.
  intros Hn.
  destruct (create_scaled_solar_profile table masses Y Zm (Some n))
    as [e | df] eqn:H.
  - rewrite create_unfold in H.
    destruct (loc_list masses _) as [e' | ms] eqn:Hms;
      cbn [mbind result_bind] in H.
    + injection H as <-. apply loc_list_inl in Hms as [-> _]. eauto.
    + destruct (scale_label 2 Y _ _) as [e' | sv] eqn:Hsv; [| discriminate].
      injection H as <-. apply scale_label_inl in Hsv as [-> _]. eauto.
  - exfalso.
    apply create_inr_inv in H as (ms & sv & _ & Hlen & Hsv & _).
    apply scale_label_inr in Hsv as [H2 _].
    rewrite fst_unscaled_frame in H2 by exact Hlen.
    apply list_elem_of_fmap in H2 as (row & Heq & Hrow).
    cbn [selected_rows] in Hrow. apply list_elem_of_filter in Hrow as [Hle _].
    lia.
Qed.

(** X13: the frame returned has one row per element kept from the table,
    labelled by the atomic numbers in the order of the table: scaling and
    normalising change cells only, never the index. *)
Theorem profile_keeps_the_index table masses Y Zm fan (df : frame) :
  create_scaled_solar_profile table masses Y Zm fan = inr df →
  fst <$> df = atomic_number <$> selected_rows fan table.
Proof.
  intros H. apply create_inr_inv in H as (ms & sv & _ & Hlen & Hsv & ->).
  apply scale_label_inr in Hsv as [_ ->].
  rewrite fst_div_column. unfold scale_from.
  rewrite (fst_scaled_rows (Z.leb 3)), (fst_scaled_rows (λ i, (i =? 2)%Z)).
  apply fst_unscaled_frame, Hlen.
Qed.

(** X14: a [final_atomic_number] that no atomic number of the table exceeds
    changes nothing: the call behaves as with [None]. *)
Theorem final_atomic_number_beyond_table_is_none table masses Y Zm (n : Z) :
  Forall (λ row, (atomic_number row <= n)%Z) table →
  create_scaled_solar_profile table masses Y Zm (Some n)
  = create_scaled_solar_profile table masses Y Zm None.
Proof.
  intros Hall. rewrite !create_unfold. cbn [selected_rows].
  replace (filter (λ row, (atomic_number row <= n)%Z) table) with table;
    [reflexivity |].
  induction Hall as [| row rows Hrow _ IH]; [reflexivity |].
  rewrite filter_cons_True by exact Hrow. f_equal. exact IH.
Qed.

Lemma scaled_rows_by_one (test : Z -> bool) (k0 : R) (df : frame) :
  k0 ≠ 0 →
  (λ row, if test row.1 then (row.1, row.2 * k0 / k0) else row) <$> df = df.
Proof.
  intros Hk0. rewrite <- (list_fmap_id df) at 2. apply list_fmap_ext.
  intros i [label cell] _. cbn. destruct (test label); [| reflexivity].
  f_equal. field. exact Hk0.
Qed.

(** X15: with the default helium and metal fractions nothing is rescaled:
    the frame returned is the unscaled mass fractions (atomic mass times
    [10**Value]) divided by their total, as the docstring announces. *)
Theorem default_fractions_only_normalise table masses fan (df : frame) :
  create_scaled_solar_profile table masses
    ASPLUND_DEFAULT_HELIUM_MASS_FRACTION_Y
    ASPLUND_DEFAULT_HEAVY_ELEMENTS_MASS_FRACTION_Z fan = inr df →
  ∃ ms : list R,
    loc_list masses (atomic_number <$> selected_rows fan table) = inr ms
    ∧ df = div_column (unscaled_frame (selected_rows fan table) ms)
             (column_sum (unscaled_frame (selected_rows fan table) ms)).
Proof.
  intros H. apply create_inr_inv in H as (ms & sv & Hms & _ & Hsv & ->).
  apply scale_label_inr in Hsv as [_ ->].
  destruct asplund_defaults_positive as [HY0 HZ0].
  exists ms. split; [exact Hms |]. unfold scale_from.
  rewrite (scaled_rows_by_one (Z.leb 3)) by lra.
  rewrite (scaled_rows_by_one (λ i, (i =? 2)%Z)) by lra.
  reflexivity.
Qed.

(** The frame a returning call divides by its total has positive cells and
    at least one row, when masses and fractions are positive. *)
Lemma create_inr_positive table masses Y Zm fan (df : frame) :
  (∀ i m, masses !! i = Some m → 0 < m) →
  0 < Y → 0 < Zm →
  create_scaled_solar_profile table masses Y Zm fan = inr df →
  ∃ sv : frame,
    df = div_column
           (scale_from 3 Zm ASPLUND_DEFAULT_HEAVY_ELEMENTS_MASS_FRACTION_Z sv)
           (column_sum
              (scale_from 3 Zm ASPLUND_DEFAULT_HEAVY_ELEMENTS_MASS_FRACTION_Z
                 sv))
    ∧ cells_positive sv
    ∧ sv ≠ []
    ∧ ∃ ms, loc_list masses (atomic_number <$> selected_rows fan table)
            = inr ms
            ∧ scale_label 2 Y ASPLUND_DEFAULT_HELIUM_MASS_FRACTION_Y
                (unscaled_frame (selected_rows fan table) ms) = inr sv.
Proof.
  intros Hmass HY HZ H.
  apply create_inr_inv in H as (ms & sv & Hms & _ & Hsv & ->).
  destruct asplund_defaults_positive as [HY0 HZ0].
  exists sv. split; [reflexivity |].
  destruct (scale_label_positive 2 Y ASPLUND_DEFAULT_HELIUM_MASS_FRACTION_Y
              (unscaled_frame (selected_rows fan table) ms) sv HY HY0)
    as [Hpos Hne]; [| exact Hsv | eauto].
  apply mass_fractions_positive. eapply loc_list_positive; eassumption.
Qed.

Lemma cell_le_column_sum (df : frame) :
  cells_positive df → Forall (λ row, row.2 <= column_sum df) df.
Proof.
  unfold column_sum. induction 1 as [| row df Hrow Hdf IH]; constructor.
  - cbn. pose proof (column_sum_positive df) as Hs.
    destruct df as [| row' df'].
    + cbn. lra.
    + unfold column_sum in Hs. specialize (Hs Hdf ltac:(discriminate)).
      unfold Rsum in Hs. lra.
  - eapply Forall_impl; [exact IH |]. intros r Hr. cbn in *.
    unfold Rsum in Hr. lra.
Qed.

(** X16: for a table indexed by increasing atomic number, positive atomic
    masses and positive [helium_mass_frac_Y] and [heavy_metal_mass_frac_Z],
    every cell of the frame returned is a mass fraction: greater than 0 and
    at most 1. *)
Theorem profile_cells_are_fractions table masses Y Zm fan (df : frame) :
  StronglySorted Z.lt (atomic_number <$> table) →
  (∀ i m, masses !! i = Some m → 0 < m) →
  0 < Y → 0 < Zm →
  create_scaled_solar_profile table masses Y Zm fan = inr df →
  Forall (λ row, 0 < row.2 <= 1) df.
Proof.
  intros _ Hmass HY HZ H.
  apply create_inr_positive in H as (sv & -> & Hpos & Hne & _); try assumption.
  destruct asplund_defaults_positive as [_ HZ0].
  pose proof (scale_from_positive 3 Zm _ sv HZ HZ0 Hpos) as Hpos'.
  set (sv' := scale_from 3 Zm _ sv) in *.
  assert (sv' ≠ []) as Hne'.
  { unfold sv', scale_from. destruct sv; [congruence | discriminate]. }
  pose proof (column_sum_positive _ Hpos' Hne') as Htot.
  pose proof (cell_le_column_sum _ Hpos') as Hle.
  unfold div_column. apply Forall_fmap.
  unfold cells_positive in Hpos'.
  rewrite Forall_forall in Hpos', Hle. apply Forall_forall.
  intros row Hrow. cbn. specialize (Hpos' row Hrow). specialize (Hle row Hrow).
  split.
  - apply Rdiv_lt_0_compat; assumption.
  - apply Rmult_le_reg_r with (column_sum sv'); [exact Htot |].
    unfold Rdiv. rewrite Rmult_assoc, Rinv_l by lra. lra.
Qed.

Lemma column_sum_scale_from_le (label : Z) (k1 k2 k0 : R) (df : frame) :
  cells_positive df → 0 < k0 → k1 <= k2 →
  column_sum (scale_from label k1 k0 df)
  <= column_sum (scale_from label k2 k0 df).
Proof.
  intros Hdf Hk0 Hk. unfold column_sum, scale_from.
  induction Hdf as [| row df Hrow _ IH]; cbn; [lra |].
  unfold Rsum in IH.
  assert ((if (label <=? row.1)%Z then (row.1, row.2 * k1 / k0) else row).2
          <= (if (label <=? row.1)%Z then (row.1, row.2 * k2 / k0) else row).2)
    as Hcell.
  { destruct (label <=? row.1)%Z; cbn; [| lra].
    unfold Rdiv. apply Rmult_le_compat_r.
    - left. apply Rinv_0_lt_compat, Hk0.
    - apply Rmult_le_compat_l; lra. }
  lra.
Qed.

(** X17: for a table indexed by increasing atomic number, positive atomic
    masses and a positive [helium_mass_frac_Y], raising
    [heavy_metal_mass_frac_Z] never raises the fraction of hydrogen or of
    helium (the rows of atomic number below 3): the metals' gain is taken
    from them by the final division. *)
Theorem more_metals_lower_light_elements
    table masses Y Z1 Z2 fan (df1 df2 : frame) :
  StronglySorted Z.lt (atomic_number <$> table) →
  (∀ i m, masses !! i = Some m → 0 < m) →
  0 < Y → 0 < Z1 → Z1 <= Z2 →
  create_scaled_solar_profile table masses Y Z1 fan = inr df1 →
  create_scaled_solar_profile table masses Y Z2 fan = inr df2 →
  ∀ (i : nat) (label : Z) (c1 c2 : R),
    (label < 3)%Z →
    df1 !! i = Some (label, c1) →
    df2 !! i = Some (label, c2) →
    c2 <= c1.
Proof.
  intros _ Hmass HY HZ1 HZ12 H1 H2 i label c1 c2 Hlabel Hc1 Hc2.
  apply create_inr_positive in H1
    as (sv & -> & Hpos & Hne & ms & Hms & Hsv); try assumption.
  apply create_inr_positive in H2
    as (sv2 & -> & _ & _ & ms2 & Hms2 & Hsv2); try assumption; [| lra].
  rewrite Hms in Hms2. injection Hms2 as <-.
  rewrite Hsv in Hsv2. injection Hsv2 as <-.
  destruct asplund_defaults_positive as [_ HZ0].
  set (Z0 := ASPLUND_DEFAULT_HEAVY_ELEMENTS_MASS_FRACTION_Z) in *.
  pose proof (column_sum_scale_from_le 3 Z1 Z2 Z0 sv Hpos HZ0 HZ12) as Hle.
  assert (0 < column_sum (scale_from 3 Z1 Z0 sv)) as Ht1.
  { apply column_sum_positive.
    - apply scale_from_positive; assumption.
    - unfold scale_from. destruct sv; [congruence | discriminate]. }
  set (t1 := column_sum (scale_from 3 Z1 Z0 sv)) in *.
  set (t2 := column_sum (scale_from 3 Z2 Z0 sv)) in *.
  unfold div_column, scale_from, frame in *.
  rewrite !list_lookup_fmap in Hc1, Hc2.
  destruct (sv !! i) as [[l a] |] eqn:Hi; [| discriminate].
  cbn in Hc1, Hc2.
  assert (0 < a) as Ha.
  { unfold cells_positive in Hpos. rewrite Forall_lookup in Hpos.
    apply (Hpos i (l, a) Hi). }
  destruct (3 <=? l)%Z eqn:Hl; cbn in Hc1, Hc2;
    injection Hc1 as <- <-; injection Hc2 as <-.
  - apply Z.leb_le in Hl. lia.
  - unfold Rdiv. apply Rmult_le_compat_l; [lra |].
    apply Rinv_le_contravar; assumption.
Qed.

(** Every cell multiplied by [c]. *)
Local Abbreviation times c df := ((λ row : Z * R, (row.1, c * row.2)) <$> df).

Lemma loc_list_fmap (f : R -> R) (series : gmap Z R) (labels : list Z) :
  loc_list (f <$> series) labels
  = match loc_list series labels with
    | inl e => inl e
    | inr ms => inr (f <$> ms)
    end.
Proof.
  induction labels as [| i labels IH]; cbn; [reflexivity |].
  rewrite lookup_fmap. destruct (series !! i) as [m |]; cbn; [| reflexivity].
  rewrite IH. destruct (loc_list series labels); reflexivity.
Qed.

Lemma unscaled_frame_times (c : R) (rows : list solar_row) (ms : list R) :
  unscaled_frame rows (Rmult c <$> ms) = times c (unscaled_frame rows ms).
Proof.
  unfold unscaled_frame. revert ms.
  induction rows as [| row rows IH]; intros ms.
  - destruct ms; reflexivity.
  - destruct ms as [| m ms]; [reflexivity |]. cbn.
    f_equal; [f_equal; ring | apply IH].
Qed.

Lemma scaled_rows_times (test : Z -> bool) (k k0 c : R) (df : frame) :
  (λ row, if test row.1 then (row.1, row.2 * k / k0) else row) <$> times c df
  = times c
      ((λ row, if test row.1 then (row.1, row.2 * k / k0) else row) <$> df).
Proof.
  unfold frame in *. rewrite <- !list_fmap_compose. apply list_fmap_ext.
  intros i [label cell] _. cbn. destruct (test label); cbn; [| reflexivity].
  f_equal. unfold Rdiv. ring.
Qed.

Lemma has_label_times (label : Z) (c : R) (df : frame) :
  has_label label (times c df) = has_label label df.
Proof.
  unfold has_label. induction df as [| row df IH]; [reflexivity |].
  cbn. rewrite IH. reflexivity.
Qed.

Lemma column_sum_times (c : R) (df : frame) :
  column_sum (times c df) = c * column_sum df.
Proof.
  unfold column_sum. induction df as [| row df IH]; cbn; [lra |].
  unfold Rsum in IH. rewrite IH. lra.
Qed.

Lemma div_column_times (c total : R) (df : frame) :
  c ≠ 0 → total ≠ 0 →
  div_column (times c df) (c * total) = div_column df total.
Proof.
  intros Hc Ht. unfold div_column, frame in *.
  rewrite <- list_fmap_compose. apply list_fmap_ext.
  intros i [label cell] _. cbn. f_equal. field. split; assumption.
Qed.

(** X18: the unit of the atomic masses does not matter: for a table indexed
    by increasing atomic number, positive atomic masses and positive
    fractions, multiplying every atomic mass by the same positive factor
    leaves the outcome (the frame, or the error) unchanged. *)
Theorem profile_ignores_the_mass_unit table masses Y Zm fan (c : R) :
  StronglySorted Z.lt (atomic_number <$> table) →
  (∀ i m, masses !! i = Some m → 0 < m) →
  0 < Y → 0 < Zm → 0 < c →
  create_scaled_solar_profile table (Rmult c <$> masses) Y Zm fan
  = create_scaled_solar_profile table masses Y Zm fan.
Proof.
  intros _ Hmass HY HZ Hc.
  destruct (create_scaled_solar_profile table masses Y Zm fan)
    as [e | df] eqn:Hrun.
  - rewrite create_unfold in Hrun |- *. rewrite loc_list_fmap.
    destruct (loc_list masses _) as [e' | ms]; [exact Hrun |].
    cbn [mbind result_bind] in Hrun |- *.
    rewrite unscaled_frame_times. unfold scale_label in Hrun |- *.
    rewrite has_label_times.
    destruct (has_label 2 _); [discriminate | exact Hrun].
  - apply create_inr_positive in Hrun
      as (sv & -> & Hpos & Hne & ms & Hms & Hsv); try assumption.
    destruct asplund_defaults_positive as [_ HZ0].
    pose proof (scale_from_positive 3 Zm _ sv HZ HZ0 Hpos) as Hpos'.
    assert (0 < column_sum
                  (scale_from 3 Zm
                     ASPLUND_DEFAULT_HEAVY_ELEMENTS_MASS_FRACTION_Z sv))
      as Htot.
    { apply column_sum_positive; [exact Hpos' |].
      unfold scale_from. destruct sv; [congruence | discriminate]. }
    apply scale_label_inr in Hsv as [H2 ->].
    rewrite create_unfold, loc_list_fmap, Hms. cbn [mbind result_bind].
    rewrite unscaled_frame_times. unfold scale_label.
    rewrite has_label_times.
    replace (has_label 2 (unscaled_frame (selected_rows fan table) ms))
      with true by (symmetry; apply has_label_spec, H2).
    cbn [mbind result_bind mret result_ret]. f_equal.
    unfold scale_from in *.
    rewrite (scaled_rows_times (λ i, (i =? 2)%Z)).
    rewrite (scaled_rows_times (Z.leb 3)).
    rewrite column_sum_times. apply div_column_times; lra.
Qed.

(** Each cell of the frame returned, from the unscaled cell of the same
    row: scaled for helium, scaled for the metals, divided by the total. *)
Lemma profile_cell table masses Y Zm fan (df : frame) (ms : list R) :
  create_scaled_solar_profile table masses Y Zm fan = inr df →
  loc_list masses (atomic_number <$> selected_rows fan table) = inr ms →
  ∃ total : R,
    ∀ (i : nat) (label : Z) (c : R),
      df !! i = Some (label, c) →
      ∃ a : R,
        unscaled_frame (selected_rows fan table) ms !! i = Some (label, a)
        ∧ c = (let a2 := if (label =? 2)%Z
                         then a * Y / ASPLUND_DEFAULT_HELIUM_MASS_FRACTION_Y
                         else a in
               if (3 <=? label)%Z
               then a2 * Zm / ASPLUND_DEFAULT_HEAVY_ELEMENTS_MASS_FRACTION_Z
               else a2) / total.
Proof.
  intros H Hms.
  apply create_inr_inv in H as (ms' & sv & Hms' & _ & Hsv & ->).
  rewrite Hms in Hms'. injection Hms' as <-.
  apply scale_label_inr in Hsv as [_ ->].
  remember (unscaled_frame (selected_rows fan table) ms) as raw eqn:Hraw.
  clear Hraw. unfold div_column, scale_from, frame in *.
  eexists. intros i label c Hc.
  rewrite !list_lookup_fmap in Hc.
  destruct (raw !! i) as [[l a] |] eqn:Hi; cbn in Hc; [| discriminate].
  exists a.
  destruct (l =? 2)%Z eqn:H2; cbn in Hc;
    destruct (3 <=? l)%Z eqn:H3; cbn in Hc;
    injection Hc as <- <-; rewrite ?H2, ?H3; split; reflexivity.
Qed.

(** X19: the metals keep their mutual proportions: in a table indexed by
    increasing atomic number, for two rows of atomic number 3 or more, the ratio of their cells in the frame returned is the
    ratio of their unscaled mass fractions, whatever the two fractions
    asked for. *)
Theorem metals_keep_their_proportions
    table masses Y Zm fan (df : frame) (ms : list R) :
  StronglySorted Z.lt (atomic_number <$> table) →
  create_scaled_solar_profile table masses Y Zm fan = inr df →
  loc_list masses (atomic_number <$> selected_rows fan table) = inr ms →
  ∀ (i j : nat) (li lj : Z) (ci cj ai aj : R),
    (3 <= li)%Z → (3 <= lj)%Z →
    df !! i = Some (li, ci) →
    df !! j = Some (lj, cj) →
    unscaled_frame (selected_rows fan table) ms !! i = Some (li, ai) →
    unscaled_frame (selected_rows fan table) ms !! j = Some (lj, aj) →
    ci * aj = cj * ai.
Proof.
  intros _ H Hms i j li lj ci cj ai aj Hli Hlj Hci Hcj Hai Haj.
  destruct (profile_cell _ _ _ _ _ _ _ H Hms) as [total Hcell].
  destruct (Hcell i li ci Hci) as (ai' & Hai' & ->).
  destruct (Hcell j lj cj Hcj) as (aj' & Haj' & ->).
  rewrite Hai in Hai'. injection Hai' as <-.
  rewrite Haj in Haj'. injection Haj' as <-.
  replace (li =? 2)%Z with false by (symmetry; apply Z.eqb_neq; lia).
  replace (lj =? 2)%Z with false by (symmetry; apply Z.eqb_neq; lia).
  replace (3 <=? li)%Z with true by (symmetry; apply Z.leb_le; lia).
  replace (3 <=? lj)%Z with true by (symmetry; apply Z.leb_le; lia).
  cbn. unfold Rdiv. ring.
Qed.

(** X20: the helium-to-hydrogen ratio follows [helium_mass_frac_Y]
    linearly: for a table indexed by increasing atomic number, in the frame
    returned, the helium cell over the hydrogen cell
    is the unscaled ratio times [helium_mass_frac_Y] over the default
    helium fraction (written without divisions). *)
Theorem helium_to_hydrogen_follows_Y
    table masses Y Zm fan (df : frame) (ms : list R) :
  StronglySorted Z.lt (atomic_number <$> table) →
  create_scaled_solar_profile table masses Y Zm fan = inr df →
  loc_list masses (atomic_number <$> selected_rows fan table) = inr ms →
  ∀ (i j : nat) (cH cHe aH aHe : R),
    df !! i = Some (1%Z, cH) →
    df !! j = Some (2%Z, cHe) →
    unscaled_frame (selected_rows fan table) ms !! i = Some (1%Z, aH) →
    unscaled_frame (selected_rows fan table) ms !! j = Some (2%Z, aHe) →
    cHe * aH * ASPLUND_DEFAULT_HELIUM_MASS_FRACTION_Y = cH * aHe * Y.
Proof.
  intros _ H Hms i j cH cHe aH aHe HcH HcHe HaH HaHe.
  destruct (profile_cell _ _ _ _ _ _ _ H Hms) as [total Hcell].
  destruct (Hcell i _ cH HcH) as (aH' & HaH' & ->).
  destruct (Hcell j _ cHe HcHe) as (aHe' & HaHe' & ->).
  rewrite HaH in HaH'. injection HaH' as <-.
  rewrite HaHe in HaHe'. injection HaHe' as <-.
  destruct asplund_defaults_positive as [HY0 _].
  set (Y0 := ASPLUND_DEFAULT_HELIUM_MASS_FRACTION_Y) in *.
  cbn. unfold Rdiv.
  assert (/ Y0 * Y0 = 1) as E by (apply Rinv_l; lra).
  replace (aHe * Y * / Y0 * / total * aH * Y0)
    with (aHe * Y * / total * aH * (/ Y0 * Y0)) by ring.
  rewrite E. ring.
Qed.

End ScaledSolarProfileOutcomes.

(** ** Instances of the further properties *)

Lemma sample_nodes3_symmetric (i : nat) (t : R) :
  [- sqrt (3 / 5); 0; sqrt (3 / 5)]%R !! i = Some t →
  [- sqrt (3 / 5); 0; sqrt (3 / 5)]%R
    !! (length [- sqrt (3 / 5); 0; sqrt (3 / 5)]%R - 1 - i)%nat
  = Some (- t)%R.
Proof.
  destruct i as [| [| [| i]]]; cbn; intros H; try discriminate;
    injection H as <-; f_equal; lra.
Qed.

Lemma sample_masses4_positive (i : Z) (m : R) :
  sample.masses4 !! i = Some m → (0 < m)%R.
Proof.
  unfold sample.masses4. intros H.
  repeat (apply lookup_insert_Some in H as [[_ <-] | [_ H]]; [lra |]).
  rewrite lookup_empty in H. discriminate.
Qed.

Lemma negative_depth_error_comes_first_witness :
  ∃ o : @RadiationField unit,
    RadiationField_new sample.leggauss sample.nus5 tt (mk_StellarModel (-1)) 0
      sample.world0
    = (inl (ValueError "negative dimensions are not allowed"),
       mk_World (heap sample.world0 ++ [o]) (trace sample.world0))
    ∧ frequencies o = Some sample.nus5
    ∧ source_function o = Some tt
    ∧ opacities o = Some (Opacities_new sample.nus5 (mk_StellarModel (-1)))
    ∧ F_nu o = None ∧ thetas o = None ∧ I_nus_weights o = None
    ∧ I_nus o = None.
Proof.
  apply (negative_depth_error_comes_first sample.leggauss sample.nus5 tt
           (mk_StellarModel (-1)) 0 sample.world0).
  cbn. lia.
Defined.

Lemma construction_frame_witness :
  ∃ (res : exn + ref) (w1 : @World unit unit unit),
    RadiationField_new sample.leggauss sample.nus5 tt (mk_StellarModel 10) 0
      sample.world0 = (res, w1)
    ∧ ∃ (o : @RadiationField unit) (evs : list event),
        heap w1 = heap sample.world0 ++ [o]
        ∧ (∀ (r : ref) (old : RadiationField),
             heap sample.world0 !! r = Some old → heap w1 !! r = Some old)
        ∧ trace w1 = trace sample.world0 ++ evs
        ∧ Forall (λ ev, (∃ shp, ev = EvZeros shp) ∨ ev = EvLeggauss 0) evs
        ∧ frequencies o = Some sample.nus5
        ∧ source_function o = Some tt.
Proof.
  eexists _, _. split; [reflexivity |].
  eapply (construction_frame sample.leggauss sample.nus5 tt
            (mk_StellarModel 10) 0 sample.world0).
  reflexivity.
Defined.

Lemma constructed_instance_is_consistent_witness :
  ∃ (r : ref) (w1 : @World unit unit unit),
    RadiationField_new sample.leggauss sample.nus5 tt (mk_StellarModel 10) 2
      sample.world0 = (inr r, w1)
    ∧ ∃ (rf : @RadiationField unit) (x w th ws : list R),
        sample.leggauss 2 = inr (x, w)
        ∧ heap w1 !! r = Some rf
        ∧ frequencies rf = Some sample.nus5
        ∧ source_function rf = Some tt
        ∧ opacities rf = Some (Opacities_new sample.nus5 (mk_StellarModel 10))
        ∧ F_nu rf = Some (np.zeros_of [10; 5])
        ∧ thetas rf = Some th ∧ len th = len x
        ∧ I_nus_weights rf = Some ws ∧ len ws = len w
        ∧ I_nus rf = Some (np.zeros_of [10; 5; len th]).
Proof.
  eexists _, _. split; [reflexivity |].
  apply (constructed_instance_is_consistent sample.leggauss sample.nus5 tt
           (mk_StellarModel 10) 2 sample.world0).
  reflexivity.
Defined.

Lemma constructions_are_independent_witness :
  ∃ (r1 r2 : ref) (w1 w2 : @World unit unit unit),
    RadiationField_new sample.leggauss sample.nus5 tt (mk_StellarModel 10) 3
      sample.world0 = (inr r1, w1)
    ∧ RadiationField_new sample.leggauss [] tt (mk_StellarModel 4) 1 w1
      = (inr r2, w2)
    ∧ r1 ≠ r2
    ∧ is_Some (heap w1 !! r1)
    ∧ heap w2 !! r1 = heap w1 !! r1.
Proof.
  pose proof (new_ok sample.leggauss sample.nus5 tt (mk_StellarModel 10) 3
                [- sqrt (3 / 5); 0; sqrt (3 / 5)]%R [5 / 9; 8 / 9; 5 / 9]%R
                sample.world0 eq_refl ltac:(cbn; lia)) as H1.
  match type of H1 with
  | _ = (_, ?w1) =>
      pose proof (new_ok sample.leggauss [] tt (mk_StellarModel 4) 1
                    [0]%R [2]%R w1 eq_refl ltac:(cbn; lia)) as H2
  end.
  eexists _, _, _, _. split; [exact H1 |]. split; [exact H2 |].
  exact (constructions_are_independent sample.leggauss
           sample.nus5 tt (mk_StellarModel 10) 3
           [] tt (mk_StellarModel 4) 1 _ _ _ _ _ H1 H2).
Defined.

Lemma thetas_within_half_radian_of_quarter_pi_witness :
  ∃ (r : ref) (w1 : @World unit unit unit),
    RadiationField_new sample.leggauss sample.nus5 tt (mk_StellarModel 10) 3
      sample.world0 = (inr r, w1)
    ∧ ∃ (rf : @RadiationField unit) (th : list R),
        heap w1 !! r = Some rf
        ∧ thetas rf = Some th
        ∧ Forall (λ θ, (PI / 4 - 1 / 2 <= θ <= PI / 4 + 1 / 2)%R) th
        ∧ (∀ (i j : nat) (a b : R),
             th !! i = Some a → th !! j = Some b → (Rabs (a - b) <= 1)%R).
Proof.
  eexists _, _. split; [reflexivity |].
  apply (thetas_within_half_radian_of_quarter_pi sample.leggauss sample.nus5
           tt (mk_StellarModel 10) 3
           [- sqrt (3 / 5); 0; sqrt (3 / 5)]%R [5 / 9; 8 / 9; 5 / 9]%R
           sample.world0).
  - reflexivity.
  - pose proof sqrt_three_fifths as [Hlo Hhi]. repeat constructor; lra.
  - reflexivity.
Defined.

Lemma thetas_symmetric_about_quarter_pi_witness :
  ∃ (r : ref) (w1 : @World unit unit unit),
    RadiationField_new sample.leggauss sample.nus5 tt (mk_StellarModel 10) 3
      sample.world0 = (inr r, w1)
    ∧ ∃ (rf : @RadiationField unit) (th : list R),
        heap w1 !! r = Some rf
        ∧ thetas rf = Some th
        ∧ ∀ (i : nat) (θ : R),
            th !! i = Some θ →
            ∃ θ', th !! (length th - 1 - i)%nat = Some θ'
                  ∧ (θ + θ' = PI / 2)%R.
Proof.
  eexists _, _. split; [reflexivity |].
  apply (thetas_symmetric_about_quarter_pi sample.leggauss sample.nus5
           tt (mk_StellarModel 10) 3
           [- sqrt (3 / 5); 0; sqrt (3 / 5)]%R [5 / 9; 8 / 9; 5 / 9]%R
           sample.world0).
  - reflexivity.
  - exact sample_nodes3_symmetric.
  - reflexivity.
Defined.

Lemma I_nus_weights_scale_linearly_witness :
  ∃ (r : ref) (w1 : @World unit unit unit),
    RadiationField_new sample.leggauss sample.nus5 tt (mk_StellarModel 10) 3
      sample.world0 = (inr r, w1)
    ∧ ∃ (rf : @RadiationField unit) (ws : list R),
        heap w1 !! r = Some rf
        ∧ I_nus_weights rf = Some ws
        ∧ Rsum ws = (PI / 2 * Rsum [5 / 9; 8 / 9; 5 / 9])%R
        ∧ (Forall (λ v, (0 < v)%R) [5 / 9; 8 / 9; 5 / 9]%R →
           Forall (λ v, (0 < v)%R) ws).
Proof.
  eexists _, _. split; [reflexivity |].
  apply (I_nus_weights_scale_linearly sample.leggauss sample.nus5
           tt (mk_StellarModel 10) 3
           [- sqrt (3 / 5); 0; sqrt (3 / 5)]%R [5 / 9; 8 / 9; 5 / 9]%R
           sample.world0).
  - reflexivity.
  - reflexivity.
Defined.

Lemma pipeline_stops_at_failed_construction_witness :
  ∃ (e : exn) (w1 : @World unit unit unit) (evs : list event),
    create_stellar_radiation_field sample.leggauss sample.calc_alphas
      sample.raytrace tt sample.nus5 (mk_StellarModel 10) tt
      (mk_Config 0 tt 1) sample.world0 = (inl e, w1)
    ∧ RadiationField_new sample.leggauss sample.nus5 tt (mk_StellarModel 10)
        (no_of_thetas (mk_Config 0 tt 1)) sample.world0 = (inl e, w1)
    ∧ trace w1 = trace sample.world0 ++ evs
    ∧ Forall (λ ev, ∃ shp, ev = EvZeros shp) evs.
Proof.
  apply (pipeline_stops_at_failed_construction sample.leggauss
           sample.calc_alphas sample.raytrace tt sample.nus5
           (mk_StellarModel 10) tt (mk_Config 0 tt 1) sample.world0).
  right. eexists. reflexivity.
Defined.


Lemma final_atomic_number_below_helium_raises_witness :
  ∃ msg,
    util.create_scaled_solar_profile sample.asplund3 sample.masses3
      util.ASPLUND_DEFAULT_HELIUM_MASS_FRACTION_Y
      util.ASPLUND_DEFAULT_HEAVY_ELEMENTS_MASS_FRACTION_Z (Some 1%Z)
    = inl (KeyError msg).
Proof.
  apply (final_atomic_number_below_helium_raises sample.asplund3
           sample.masses3 util.ASPLUND_DEFAULT_HELIUM_MASS_FRACTION_Y
           util.ASPLUND_DEFAULT_HEAVY_ELEMENTS_MASS_FRACTION_Z 1).
  lia.
Defined.

Lemma profile_keeps_the_index_witness :
  ∃ df : util.frame,
    util.create_scaled_solar_profile sample.asplund4 sample.masses4 0.3 0.02
      (Some 3%Z) = inr df
    ∧ fst <$> df = [1; 2; 3]%Z.
Proof.
  eexists. split; [reflexivity |].
  apply (profile_keeps_the_index sample.asplund4 sample.masses4 0.3 0.02
           (Some 3%Z)).
  reflexivity.
Defined.

Lemma final_atomic_number_beyond_table_is_none_witness :
  util.create_scaled_solar_profile sample.asplund4 sample.masses4 0.3 0.02
    (Some 92%Z)
  = util.create_scaled_solar_profile sample.asplund4 sample.masses4 0.3 0.02
      None.
Proof.
  apply (final_atomic_number_beyond_table_is_none sample.asplund4
           sample.masses4 0.3 0.02 92).
  repeat constructor; cbn; lia.
Defined.

Lemma default_fractions_only_normalise_witness :
  ∃ (df : util.frame) (ms : list R),
    util.create_scaled_solar_profile sample.asplund4 sample.masses4
      util.ASPLUND_DEFAULT_HELIUM_MASS_FRACTION_Y
      util.ASPLUND_DEFAULT_HEAVY_ELEMENTS_MASS_FRACTION_Z None = inr df
    ∧ util.loc_list sample.masses4
        (util.atomic_number <$> util.selected_rows None sample.asplund4)
      = inr ms
    ∧ df = util.div_column
             (util.unscaled_frame (util.selected_rows None sample.asplund4) ms)
             (util.column_sum
                (util.unscaled_frame (util.selected_rows None sample.asplund4)
                   ms)).
Proof.
  eexists _, _. split; [reflexivity |].
  split; [reflexivity |].
  destruct (default_fractions_only_normalise sample.asplund4 sample.masses4
              None _ eq_refl) as (ms & Hms & Hdf).
  injection Hms as <-. exact Hdf.
Defined.

Lemma profile_cells_are_fractions_witness :
  ∃ df : util.frame,
    util.create_scaled_solar_profile sample.asplund4 sample.masses4 0.3 0.02
      None = inr df
    ∧ Forall (λ row, (0 < row.2 <= 1)%R) df.
Proof.
  eexists. split; [reflexivity |].
  apply (profile_cells_are_fractions sample.asplund4 sample.masses4 0.3 0.02
           None).
  - repeat constructor; lia.
  - exact sample_masses4_positive.
  - lra.
  - lra.
  - reflexivity.
Defined.

Lemma more_metals_lower_light_elements_witness :
  ∃ (df1 df2 : util.frame) (c1 c2 : R),
    util.create_scaled_solar_profile sample.asplund4 sample.masses4 0.3 0.01
      None = inr df1
    ∧ util.create_scaled_solar_profile sample.asplund4 sample.masses4 0.3 0.02
        None = inr df2
    ∧ df1 !! 0%nat = Some (1%Z, c1)
    ∧ df2 !! 0%nat = Some (1%Z, c2)
    ∧ (c2 <= c1)%R.
Proof.
  eexists _, _, _, _. split; [reflexivity |]. split; [reflexivity |].
  split; [reflexivity |]. split; [reflexivity |].
  eapply (more_metals_lower_light_elements sample.asplund4 sample.masses4
            0.3 0.01 0.02 None) with (i := 0%nat) (label := 1%Z).
  - repeat constructor; lia.
  - exact sample_masses4_positive.
  - lra.
  - lra.
  - lra.
  - reflexivity.
  - reflexivity.
  - lia.
  - reflexivity.
  - reflexivity.
Defined.

Lemma profile_ignores_the_mass_unit_witness :
  util.create_scaled_solar_profile sample.asplund4
    (Rmult 1000 <$> sample.masses4) 0.3 0.02 None
  = util.create_scaled_solar_profile sample.asplund4 sample.masses4 0.3 0.02
      None.
Proof.
  apply (profile_ignores_the_mass_unit sample.asplund4 sample.masses4
           0.3 0.02 None 1000).
  - repeat constructor; lia.
  - exact sample_masses4_positive.
  - lra.
  - lra.
  - lra.
Defined.

(** Lithium and beryllium. *)
Lemma metals_keep_their_proportions_witness :
  ∃ (df : util.frame) (ms : list R) (ci cj ai aj : R),
    util.create_scaled_solar_profile sample.asplund4 sample.masses4 0.3 0.02
      None = inr df
    ∧ util.loc_list sample.masses4
        (util.atomic_number <$> util.selected_rows None sample.asplund4)
      = inr ms
    ∧ df !! 2%nat = Some (3%Z, ci)
    ∧ df !! 3%nat = Some (4%Z, cj)
    ∧ util.unscaled_frame (util.selected_rows None sample.asplund4) ms
        !! 2%nat = Some (3%Z, ai)
    ∧ util.unscaled_frame (util.selected_rows None sample.asplund4) ms
        !! 3%nat = Some (4%Z, aj)
    ∧ (ci * aj = cj * ai)%R.
Proof.
  eexists _, _, _, _, _, _.
  do 6 (split; [reflexivity |]).
  refine (metals_keep_their_proportions sample.asplund4 sample.masses4
            0.3 0.02 None _ _ _ eq_refl eq_refl 2%nat 3%nat 3%Z 4%Z
            _ _ _ _ _ _ _ _ _ _).
  - repeat constructor; lia.
  - lia.
  - lia.
  - reflexivity.
  - reflexivity.
  - reflexivity.
  - reflexivity.
Defined.

Lemma helium_to_hydrogen_follows_Y_witness :
  ∃ (df : util.frame) (ms : list R) (cH cHe aH aHe : R),
    util.create_scaled_solar_profile sample.asplund4 sample.masses4 0.3 0.02
      None = inr df
    ∧ util.loc_list sample.masses4
        (util.atomic_number <$> util.selected_rows None sample.asplund4)
      = inr ms
    ∧ df !! 0%nat = Some (1%Z, cH)
    ∧ df !! 1%nat = Some (2%Z, cHe)
    ∧ util.unscaled_frame (util.selected_rows None sample.asplund4) ms
        !! 0%nat = Some (1%Z, aH)
    ∧ util.unscaled_frame (util.selected_rows None sample.asplund4) ms
        !! 1%nat = Some (2%Z, aHe)
    ∧ (cHe * aH * util.ASPLUND_DEFAULT_HELIUM_MASS_FRACTION_Y
       = cH * aHe * 0.3)%R.
Proof.
  eexists _, _, _, _, _, _.
  do 6 (split; [reflexivity |]).
  refine (helium_to_hydrogen_follows_Y sample.asplund4 sample.masses4
            0.3 0.02 None _ _ _ eq_refl eq_refl 0%nat 1%nat
            _ _ _ _ _ _ _ _).
  - repeat constructor; lia.
  - reflexivity.
  - reflexivity.
  - reflexivity.
  - reflexivity.
Defined.
